(** * winsnow: the snowfall simulation, its rasteriser and the window layering call

    A shallow embedding of [winsnow.go].

    Numbers.  Go's [int] is modelled by [Z]; where [Draw] computes on ints,
    each operation is reduced to the signed 64-bit range.  Go's [float64] is
    modelled by the exact rationals [Q]: every arithmetic expression of the
    source is kept as written, evaluated without rounding; infinities and NaN
    are outside the model.  Comparisons are the boolean tests the source
    branches on.

    Environment.  The program reads three things from outside: the wall clock
    ([time.Now().UnixNano()], the seed of each generator), the primary monitor
    size ([ebiten.ScreenSizeInFullscreen]) and the window manager.  Each is an
    explicit input of the function that reads it.  The generator of
    [math/rand] is a library: its stream of draws is a parameter, constrained
    only by the documented range of [Float64], the half-open interval from 0
    to 1. *)

From Stdlib Require Import String ZArith QArith Qpower Lqa Lia Bool List.
Import ListNotations.

Local Open Scope Q_scope.

(** ** float64 as exact rationals *)

Definition float64 : Type := Q.

Module F64.

(** [float64(n)] for an [int] n. *)
Definition of_int (n : Z) : float64 := inject_Z n.

(** [int(f)]: the fraction is discarded (truncation towards zero). *)
Definition to_int (f : float64) : Z := Z.quot (Qnum f) (Zpos (Qden f)).

(** The comparisons [a <= b], [a < b] and [a > b] as the tests of an [if]. *)
Definition leb (a b : float64) : bool := Qle_bool a b.
Definition ltb (a b : float64) : bool := negb (Qle_bool b a).
Definition gtb (a b : float64) : bool := ltb b a.

End F64.

Infix "<=?" := F64.leb (at level 70, no associativity) : Q_scope.
Infix "<?" := F64.ltb (at level 70, no associativity) : Q_scope.
Infix ">?" := F64.gtb (at level 70, no associativity) : Q_scope.

(** ** math/rand: a generator as a seed and a cursor in its stream *)

Module rand.

(** [*rand.Rand]: the seed it was built from and how many draws were taken. *)
Record Rand := mkRand { seed : Z; drawn : nat }.

(** [rand.New(rand.NewSource(seed))]. *)
Definition New (s : Z) : Rand := mkRand s 0.

(** Code that draws from a generator: it receives the generator and returns
    it advanced. *)
Definition Gen (A : Type) : Type := Rand -> A * Rand.

Definition ret {A} (a : A) : Gen A := fun r => (a, r).

Definition bind {A B} (m : Gen A) (k : A -> Gen B) : Gen B :=
  fun r => let (a, r') := m r in k a r'.

End rand.

Notation "v <- m ;; k" := (rand.bind m (fun v => k))
  (at level 61, m at next level, right associativity).

(** ** The data model *)

(** Snowflake represents a single snow particle. *)
Record Snowflake := mkSnowflake {
  x : float64;
  y : float64;
  size : float64;
  speed : float64;
  drift : float64;
  windSpeed : float64
}.

(** Game: the particle collection, the canvas and the wind. *)
Record Game := mkGame {
  snowflakes : list Snowflake;
  screenWidth : Z;
  screenHeight : Z;
  wind : float64;
  windTarget : float64;
  windChangeTime : float64
}.

(** Go's [error]; [nil] is the absence of one. *)
Definition error := option String.string.
Definition nil_error : error := None.

Definition numSnowflakes : nat := 300.

(** In-place assignments to the fields the code writes. *)
Definition set_x (v : float64) (f : Snowflake) : Snowflake :=
  mkSnowflake v (y f) (size f) (speed f) (drift f) (windSpeed f).
Definition set_y (v : float64) (f : Snowflake) : Snowflake :=
  mkSnowflake (x f) v (size f) (speed f) (drift f) (windSpeed f).

Section Simulation.

(** The stream of [math/rand]: [source s k] is the value of the k-th call of
    [Float64] on a generator seeded with [s]. *)
Variable source : Z -> nat -> float64.

(** [r.Float64()]. *)
Definition Float64 : rand.Gen float64 :=
  fun r => (source (rand.seed r) (rand.drawn r),
            rand.mkRand (rand.seed r) (S (rand.drawn r))).

(** *** Initialize *)

(** The composite literal of one snowflake: four draws, in the order of the
    fields; [windSpeed] is left at its zero value. *)
Definition newSnowflake (w h : Z) : rand.Gen Snowflake :=
  fx <- Float64 ;;
  fy <- Float64 ;;
  fs <- Float64 ;;
  fv <- Float64 ;;
  rand.ret (mkSnowflake (fx * F64.of_int w) (fy * F64.of_int h)
                        (1.0 + fs * 3.0) (6.0 + fv * 10.0) 0 0).

(** [for i := range g.snowflakes { g.snowflakes[i] = Snowflake{...} }] over a
    slice of [n] elements. *)
Fixpoint fillSnowflakes (n : nat) (w h : Z) : rand.Gen (list Snowflake) :=
  match n with
  | O => rand.ret []
  | S k =>
      f <- newSnowflake w h ;;
      fs <- fillSnowflakes k w h ;;
      rand.ret (f :: fs)
  end.

(** [Initialize]: [screen] is what [ebiten.ScreenSizeInFullscreen] returns
    and [now] what the clock reads.  Every field of the receiver is
    overwritten. *)
Definition Initialize (g : Game) (screen : Z * Z) (now : Z) : Game :=
  let (w, h) := screen in
  let r := rand.New now in
  let (fs, _) := fillSnowflakes numSnowflakes w h r in
  mkGame fs w h 0 0 0.

(** *** Update *)

(** Lines 84-89: the countdown and the wind target. *)
Definition updateWindTarget (target countdown : float64)
  : rand.Gen (float64 * float64) :=
  let countdown := countdown - 1.0 in
  if countdown <=? 0 then
    f1 <- Float64 ;;
    let target := (f1 * 2 - 1.0) * 0.8 in
    f2 <- Float64 ;;
    let countdown := 60 + f2 * 120 in
    rand.ret (target, countdown)
  else rand.ret (target, countdown).

(** Lines 97-101: wind effect and velocity. *)
Definition move (wnd : float64) (f : Snowflake) : Snowflake :=
  let windEffect := wnd / size f in
  let f := set_x (x f + windEffect) f in
  set_y (y f + speed f) f.

(** Lines 104-107: reset if out of bounds. *)
Definition reset (w h : Z) (f : Snowflake) : rand.Gen Snowflake :=
  if y f >? F64.of_int h then
    let f := set_y 0 f in
    fx <- Float64 ;;
    rand.ret (set_x (fx * F64.of_int w) f)
  else rand.ret f.

(** Lines 110-114: wrap around the left and right edges. *)
Definition wrap (w : Z) (f : Snowflake) : Snowflake :=
  if x f <? 0 then set_x (F64.of_int w) f
  else if x f >? F64.of_int w then set_x 0 f
  else f.

(** The body of the loop over the snowflakes. *)
Definition updateSnowflake (wnd : float64) (w h : Z) (f : Snowflake)
  : rand.Gen Snowflake :=
  f <- reset w h (move wnd f) ;;
  rand.ret (wrap w f).

(** [for i := range g.snowflakes { ... }]: in index order, one generator. *)
Fixpoint updateSnowflakes (wnd : float64) (w h : Z) (fs : list Snowflake)
  : rand.Gen (list Snowflake) :=
  match fs with
  | [] => rand.ret []
  | f :: rest =>
      f' <- updateSnowflake wnd w h f ;;
      rest' <- updateSnowflakes wnd w h rest ;;
      rand.ret (f' :: rest')
  end.

(** [Update]: one frame; [now] is what the clock reads. *)
Definition Update (g : Game) (now : Z) : Game * error :=
  let r := rand.New now in
  let '((target, countdown), r) :=
    updateWindTarget (windTarget g) (windChangeTime g) r in
  let wnd := wind g * 0.99 + target * 0.01 in
  let (fs, _) :=
    updateSnowflakes wnd (screenWidth g) (screenHeight g) (snowflakes g) r in
  (mkGame fs (screenWidth g) (screenHeight g) wnd target countdown, nil_error).

(** [n] frames after [Initialize]: [clock 0] is read by [Initialize] and
    [clock k] by the k-th [Update]. *)
Fixpoint frames (clock : nat -> Z) (n : nat) (g : Game) : Game :=
  match n with
  | O => g
  | S k => fst (Update (frames clock k g) (clock (S k)))
  end.

Definition run (g0 : Game) (screen : Z * Z) (clock : nat -> Z) (n : nat) : Game :=
  frames clock n (Initialize g0 screen (clock O)).

End Simulation.

(** ** Draw *)

(** Go's [int] on the 64-bit target of the program: the operations of [Draw],
    each reduced to the signed 64-bit range. *)
Module int.

Definition wrap (z : Z) : Z := ((z + 2 ^ 63) mod 2 ^ 64 - 2 ^ 63)%Z.

Definition add (a b : Z) : Z := wrap (a + b).
Definition mul (a b : Z) : Z := wrap (a * b).
Definition neg (a : Z) : Z := wrap (- a).
(** [a / b] truncates towards zero. *)
Definition quot (a b : Z) : Z := wrap (Z.quot a b).

(** The values of [i] in [for i := lo; i <= hi; i++], for [hi] below the
    largest [int]. *)
Definition upto (lo hi : Z) : list Z :=
  map (fun k => lo + Z.of_nat k)%Z (seq 0 (Z.to_nat (hi - lo + 1))).

End int.

(** [color.Color] values the program uses. *)
Inductive Color :=
| RGBA (r g b a : Z)
| White.

(** What [Draw] does to the [*ebiten.Image] it is given, in program order. *)
Inductive ImageOp :=
| Image_Fill (c : Color)
| Image_Set (px py : Z) (c : Color).

(** The body of the loop over the snowflakes. *)
Definition drawSnowflake (flake : Snowflake) : list ImageOp :=
  let size := F64.to_int (size flake) in
  let px := F64.to_int (x flake) in
  let py := F64.to_int (y flake) in
  if (size <=? 1)%Z then [Image_Set px py White]
  else
    flat_map (fun dx =>
      flat_map (fun dy =>
        if (int.add (int.mul dx dx) (int.mul dy dy)
              <=? int.quot (int.mul size size) 4)%Z
        then [Image_Set (int.add px dx) (int.add py dy) White]
        else [])
        (int.upto (int.quot (int.neg size) 2) (int.quot size 2)))
      (int.upto (int.quot (int.neg size) 2) (int.quot size 2)).

Definition Draw (g : Game) : list ImageOp :=
  Image_Fill (RGBA 0 0 0 255) :: flat_map drawSnowflake (snowflakes g).

(** [Layout] returns the screen dimensions. *)
Definition Layout (g : Game) (outsideWidth outsideHeight : Z) : Z * Z :=
  (screenWidth g, screenHeight g).

(** ** SetWindowToBottom *)

(** Constants for window positioning. *)
Definition HWND_BOTTOM : Z := 1.
Definition HWND_TOPMOST : Z := -1.
Definition HWND_NOTOPMOST : Z := -2.
Definition SWP_NOMOVE : Z := 0x0002.
Definition SWP_NOSIZE : Z := 0x0001.
Definition SWP_NOACTIVATE : Z := 0x0010.
Definition SWP_SHOWWINDOW : Z := 0x0040.
Definition GWL_EXSTYLE : Z := -20.
Definition WS_EX_LAYERED : Z := 0x80000.
Definition WS_EX_NOACTIVATE : Z := 0x08000000.

(** The window manager as the routine sees it during one call: the answers of
    [FindWindowW] (class name, window title; a null pointer is [None]) and of
    [GetForegroundWindow].  A handle is a [uintptr]; 0 is the null handle. *)
Record User32 := mkUser32 {
  FindWindowW : option String.string -> option String.string -> Z;
  GetForegroundWindow : Z
}.

(** What the routine does to the outside, in program order. *)
Inductive Effect :=
| SetWindowPos (hWnd hWndInsertAfter X Y cx cy uFlags : Z)
| LogPrintln (msg : String.string).

(** Lines 181-201: with the handle found, push the window to the bottom of
    the Z order and put the former foreground window back. *)
Definition reposition (user32 : User32) (hwnd : Z) : list Effect :=
  let fgHwnd := GetForegroundWindow user32 in
  SetWindowPos hwnd HWND_BOTTOM 0 0 0 0
    (Z.lor (Z.lor (Z.lor SWP_NOMOVE SWP_NOSIZE) SWP_NOACTIVATE) SWP_SHOWWINDOW)
  :: (if negb (fgHwnd =? 0)%Z && negb (fgHwnd =? hwnd)%Z then
        [SetWindowPos fgHwnd 0 0 0 0 0
           (Z.lor (Z.lor SWP_NOMOVE SWP_NOSIZE) SWP_SHOWWINDOW)]
      else []).

Definition SetWindowToBottom (user32 : User32) : list Effect :=
  let title := "Snow Wallpaper"%string in
  let hwnd := FindWindowW user32 None (Some title) in
  if (hwnd =? 0)%Z then
    let className := "Ebiten"%string in
    let hwnd := FindWindowW user32 (Some className) None in
    if (hwnd =? 0)%Z then
      [LogPrintln "Could not find window handle, will retry later"]
    else reposition user32 hwnd
  else reposition user32 hwnd.

(** ** Predicates on states, and concrete inputs *)

(** A particle as [Initialize] makes it, on a canvas of [w] by [h]. *)
Definition created (w h : Z) (f : Snowflake) : Prop :=
  1.0 <= size f < 4.0 /\ 6.0 <= speed f < 16.0 /\
  0 <= x f < F64.of_int w /\ 0 <= y f < F64.of_int h.

(** What [Update] leaves alone in a particle. *)
Definition same_attributes (f f' : Snowflake) : Prop :=
  size f' = size f /\ speed f' = speed f /\ drift f' = drift f /\
  windSpeed f' = windSpeed f.

(** The position of a particle against the canvas, with and without its
    right and bottom edges. *)
Definition in_closed_box (w h : Z) (f : Snowflake) : Prop :=
  0 <= x f <= F64.of_int w /\ 0 <= y f <= F64.of_int h.

Definition in_half_open_box (w h : Z) (f : Snowflake) : Prop :=
  0 <= x f < F64.of_int w /\ 0 <= y f < F64.of_int h.

(** Both winds within the range of the re-rolled target. *)
Definition wind_bounded (g : Game) : Prop :=
  - 0.8 <= windTarget g <= 0.8 /\ - 0.8 <= wind g <= 0.8.


(** The zero value of [Game], as [main] allocates it. *)
Definition zeroGame : Game := mkGame [] 0 0 0 0 0.

(** Two streams within the range of [Float64]: one that always draws 0, and
    one that steps through the sixteenths, starting from the seed. *)
Definition zero_source : Z -> nat -> float64 := fun _ _ => 0.

Definition step_source : Z -> nat -> float64 :=
  fun s k => ((s + 7 * Z.of_nat k) mod 16)%Z # 16.

(** [Draw] plots the pixel at offset (dx, dy) from the truncated position of
    the particle. *)
Definition plots (flake : Snowflake) (dx dy : Z) : Prop :=
  In (Image_Set (F64.to_int (x flake) + dx) (F64.to_int (y flake) + dy) White)
     (drawSnowflake flake).

(** The inclusion test read on the size of the particle itself: the offsets
    plotted are those with dx*dx + dy*dy <= size*size/4. *)
Definition disc_rule_on_size (flake : Snowflake) : Prop :=
  forall dx dy : Z,
    plots flake dx dy <->
    inject_Z (dx * dx + dy * dy) <= size flake * size flake / 4.

(** A particle of size 2.875 at (10.5, 20.5). *)
Definition flake_2_875 : Snowflake := mkSnowflake 10.5 20.5 2.875 6 0 0.

(** The handle [SetWindowToBottom] ends up with after its two lookups; 0 when
    neither finds the window. *)
Definition foundWindow (user32 : User32) : Z :=
  let hwnd := FindWindowW user32 None (Some "Snow Wallpaper"%string) in
  if (hwnd =? 0)%Z then FindWindowW user32 (Some "Ebiten"%string) None
  else hwnd.

(** A flag is set in a [uFlags] word. *)
Definition has_flag (uFlags flag : Z) : Prop := Z.land uFlags flag = flag.

(** The effects contain a [SetWindowPos] on [hWnd], wherever it inserts the
    window, whose flags forbid move, resize and activation. *)
Definition repositions_without_activation (effects : list Effect) (hWnd : Z)
    : Prop :=
  exists after X Y cx cy flags,
    In (SetWindowPos hWnd after X Y cx cy flags) effects /\
    has_flag flags SWP_NOMOVE /\ has_flag flags SWP_NOSIZE /\
    has_flag flags SWP_NOACTIVATE.

(** A desktop where the render window has handle 100, found by its title,
    and window 200 has the focus. *)
Definition desktop_100_200 : User32 :=
  mkUser32 (fun _ title => match title with Some _ => 100 | None => 0 end)%Z 200%Z.

(** The particle [newSnowflake] builds from the four draws of a stream that
    start at cursor [k]. *)
Definition flake_of_draws (source : Z -> nat -> float64) (w h s : Z) (k : nat)
    : Snowflake :=
  mkSnowflake (source s k * F64.of_int w) (source s (S k) * F64.of_int h)
              (1.0 + source s (S (S k)) * 3.0)
              (6.0 + source s (S (S (S k))) * 10.0) 0 0.

(** The test of the reset, on a particle as the frame finds it: after the
    velocity step it is below the bottom edge. *)
Definition falls_out (h : Z) (f : Snowflake) : bool :=
  y f + speed f >? F64.of_int h.

(** The attributes [Initialize] gives and no frame touches. *)
Definition created_attributes (f : Snowflake) : Prop :=
  1.0 <= size f < 4.0 /\ 6.0 <= speed f < 16.0 /\ drift f = 0 /\
  windSpeed f = 0.

(** Lines 220-229 of [main]: the layering loop calls [SetWindowToBottom] once
    per tick of its ticker; [ticks] lists the window manager as each call
    finds it. *)
Definition daemon (ticks : list User32) : list Effect :=
  flat_map SetWindowToBottom ticks.

(** A call that leaves the place and the size of its window alone and shows
    it: zero geometry under the flags no-move, no-size and show-window. *)
Definition keeps_geometry (e : Effect) : Prop :=
  match e with
  | SetWindowPos _ _ X Y cx cy uFlags =>
      X = 0%Z /\ Y = 0%Z /\ cx = 0%Z /\ cy = 0%Z /\
      has_flag uFlags SWP_NOMOVE /\ has_flag uFlags SWP_NOSIZE /\
      has_flag uFlags SWP_SHOWWINDOW
  | LogPrintln _ => True
  end.

Definition is_log (e : Effect) : bool :=
  match e with LogPrintln _ => true | SetWindowPos _ _ _ _ _ _ _ => false end.

(** A call that sends its window to the bottom of the Z order. *)
Definition to_bottom (e : Effect) : bool :=
  match e with
  | SetWindowPos _ after _ _ _ _ _ => (after =? HWND_BOTTOM)%Z
  | LogPrintln _ => false
  end.

(** Neither lookup finds the render window. *)
Definition window_missing (user32 : User32) : bool :=
  (foundWindow user32 =? 0)%Z.

(** A desktop without the render window, and one where the render window
    itself has the focus. *)
Definition desktop_empty : User32 := mkUser32 (fun _ _ => 0%Z) 200%Z.

Definition desktop_100_100 : User32 :=
  mkUser32 (fun _ title => match title with Some _ => 100 | None => 0 end)%Z 100%Z.

(** * Properties *)

(** ** The comparisons of the source, as propositions *)

Lemma leb_spec (a b : float64) : (a <=? b) = true <-> a <= b.
Proof. apply Qle_bool_iff. Qed.

Lemma ltb_spec (a b : float64) : (a <? b) = true <-> a < b.
Proof.
  unfold F64.ltb. rewrite negb_true_iff. split.
  - intros E. apply Qnot_le_lt. intros L. apply Qle_bool_iff in L. congruence.
  - intros L. destruct (Qle_bool b a) eqn:E; [|reflexivity].
    apply Qle_bool_iff in E. lra.
Qed.

Lemma ltb_false (a b : float64) : (a <? b) = false <-> b <= a.
Proof.
  unfold F64.ltb. rewrite negb_false_iff. apply Qle_bool_iff.
Qed.

Lemma leb_false (a b : float64) : (a <=? b) = false <-> b < a.
Proof.
  rewrite <- ltb_spec. unfold F64.ltb, F64.leb.
  destruct (Qle_bool a b); simpl; intuition congruence.
Qed.

Lemma gtb_spec (a b : float64) : (a >? b) = true <-> b < a.
Proof. apply ltb_spec. Qed.

Lemma gtb_false (a b : float64) : (a >? b) = false <-> a <= b.
Proof. apply ltb_false. Qed.

Lemma of_int_pos (n : Z) : (0 < n)%Z -> 0 < F64.of_int n.
Proof. intros H. unfold F64.of_int, Qlt; simpl. lia. Qed.

Lemma of_int_nonneg (n : Z) : (0 <= n)%Z -> 0 <= F64.of_int n.
Proof. intros H. unfold F64.of_int, Qle; simpl. lia. Qed.

(** A draw scaled to a positive length stays below it. *)
Lemma scale_range (f l : float64) : 0 <= f < 1 -> 0 < l -> 0 <= f * l < l.
Proof.
  intros [H0 H1] Hl. split.
  - apply Qmult_le_0_compat; lra.
  - pose proof (Qmult_lt_compat_r f 1 l Hl H1) as H. lra.
Qed.

Lemma zero_source_range (s : Z) (k : nat) : 0 <= zero_source s k < 1.
Proof. unfold zero_source. lra. Qed.

Lemma step_source_range (s : Z) (k : nat) : 0 <= step_source s k < 1.
Proof.
  unfold step_source.
  pose proof (Z.mod_pos_bound (s + 7 * Z.of_nat k) 16 eq_refl) as B.
  unfold Qle, Qlt; cbn [Qnum Qden]. lia.
Qed.

(** ** Generator code: how the loops thread it *)

Section Threading.

Variable source : Z -> nat -> float64.

Lemma fillSnowflakes_length (w h : Z) (n : nat) (r : rand.Rand) :
  length (fst (fillSnowflakes source n w h r)) = n.
Proof.
  revert r. induction n as [|n IH]; intros r; simpl; [reflexivity|].
  unfold rand.bind.
  destruct (newSnowflake source w h r) as [f r1].
  specialize (IH r1).
  destruct (fillSnowflakes source n w h r1) as [fs r2]. simpl in *.
  now rewrite IH.
Qed.

(** Every element of the filled slice is a [newSnowflake] of some state of
    the generator. *)
Lemma fillSnowflakes_Forall (P : Snowflake -> Prop) (w h : Z) :
  (forall r, P (fst (newSnowflake source w h r))) ->
  forall n r, Forall P (fst (fillSnowflakes source n w h r)).
Proof.
  intros HP. induction n as [|n IH]; intros r; simpl; [constructor|].
  unfold rand.bind.
  pose proof (HP r) as Hf.
  destruct (newSnowflake source w h r) as [f r1].
  specialize (IH r1).
  destruct (fillSnowflakes source n w h r1) as [fs r2]. simpl in *.
  now constructor.
Qed.

(** Every element after the loop of [Update] is the loop body applied to the
    element before, at some state of the generator. *)
Lemma updateSnowflakes_Forall2 (R : Snowflake -> Snowflake -> Prop)
    (wnd : float64) (w h : Z) :
  forall fs : list Snowflake,
  (forall f r, In f fs -> R f (fst (updateSnowflake source wnd w h f r))) ->
  forall r, Forall2 R fs (fst (updateSnowflakes source wnd w h fs r)).
Proof.
  induction fs as [|f fs IH]; intros HR r; simpl; [constructor|].
  unfold rand.bind.
  pose proof (HR f r (or_introl eq_refl)) as Hf.
  destruct (updateSnowflake source wnd w h f r) as [f' r1].
  assert (HR' : forall f0 r0, In f0 fs ->
            R f0 (fst (updateSnowflake source wnd w h f0 r0)))
    by (intros; apply HR; now right).
  specialize (IH HR' r1).
  destruct (updateSnowflakes source wnd w h fs r1) as [fs' r2]. simpl in *.
  now constructor.
Qed.

(** The fields of the state [Update] returns. *)
Lemma Update_fields (g : Game) (now : Z) :
  let tc := fst (updateWindTarget source (windTarget g) (windChangeTime g)
                   (rand.New now)) in
  let r1 := snd (updateWindTarget source (windTarget g) (windChangeTime g)
                   (rand.New now)) in
  let g' := fst (Update source g now) in
  windTarget g' = fst tc /\ windChangeTime g' = snd tc /\
  wind g' = wind g * 0.99 + fst tc * 0.01 /\
  screenWidth g' = screenWidth g /\ screenHeight g' = screenHeight g /\
  snowflakes g' =
    fst (updateSnowflakes source (wind g') (screenWidth g) (screenHeight g)
           (snowflakes g) r1).
Proof.
  unfold Update.
  destruct (updateWindTarget source (windTarget g) (windChangeTime g)
              (rand.New now)) as [[t c] r1]. simpl.
  destruct (updateSnowflakes source (wind g * 0.99 + t * 0.01)
              (screenWidth g) (screenHeight g) (snowflakes g) r1)
    as [fs r2] eqn:E. simpl.
  repeat split; try reflexivity. now rewrite E.
Qed.

Lemma updateSnowflake_same_attributes (wnd : float64) (w h : Z)
    (f : Snowflake) (r : rand.Rand) :
  same_attributes f (fst (updateSnowflake source wnd w h f r)).
Proof.
  unfold updateSnowflake, reset, wrap, move, rand.bind, rand.ret, Float64.
  simpl.
  destruct (y f + speed f >? F64.of_int h); simpl;
    repeat match goal with |- context [if ?c then _ else _] => destruct c end;
    simpl; repeat split; reflexivity.
Qed.

End Threading.

(** ** Initialize and the frame of Update *)

Section Particles.

Variable source : Z -> nat -> float64.
Hypothesis source_range : forall s k, 0 <= source s k < 1.

Lemma newSnowflake_created (w h : Z) (r : rand.Rand) :
  (0 < w)%Z -> (0 < h)%Z -> created w h (fst (newSnowflake source w h r)).
Proof.
  intros Hw Hh.
  unfold newSnowflake, created, rand.bind, rand.ret, Float64. simpl.
  pose proof (source_range (rand.seed r) (rand.drawn r)) as D0.
  pose proof (source_range (rand.seed r) (S (rand.drawn r))) as D1.
  pose proof (source_range (rand.seed r) (S (S (rand.drawn r)))) as D2.
  pose proof (source_range (rand.seed r) (S (S (S (rand.drawn r))))) as D3.
  pose proof (scale_range _ _ D0 (of_int_pos w Hw)).
  pose proof (scale_range _ _ D1 (of_int_pos h Hh)).
  repeat split; lra.
Qed.

(** C6. After [Initialize] on a canvas of positive width and height there
    are exactly 300 particles; each has 1.0 <= size < 4.0,
    6.0 <= speed < 16.0, 0 <= x < width and 0 <= y < height; and the wind,
    the wind target and the countdown are zero. *)
Theorem Initialize_creates_particles (g0 : Game) (w h now : Z) :
  (0 < w)%Z -> (0 < h)%Z ->
  let g := Initialize source g0 (w, h) now in
  length (snowflakes g) = 300%nat /\
  Forall (fun f => 1.0 <= size f < 4.0 /\ 6.0 <= speed f < 16.0 /\
                   0 <= x f < F64.of_int (screenWidth g) /\
                   0 <= y f < F64.of_int (screenHeight g)) (snowflakes g) /\
  screenWidth g = w /\ screenHeight g = h /\
  wind g = 0 /\ windTarget g = 0 /\ windChangeTime g = 0.
Proof.
  intros Hw Hh. unfold Initialize.
  pose proof (fillSnowflakes_length source w h numSnowflakes (rand.New now)) as L.
  pose proof (fillSnowflakes_Forall source (created w h) w h
                (fun r => newSnowflake_created w h r Hw Hh)
                numSnowflakes (rand.New now)) as F.
  destruct (fillSnowflakes source numSnowflakes w h (rand.New now)) as [fs r].
  simpl in *. repeat split; try reflexivity; assumption.
Qed.

End Particles.

(** C6, on a 1920 by 1080 canvas with the stepping stream. *)
Lemma Initialize_creates_particles_witness :
  (0 < 1920)%Z /\ (0 < 1080)%Z /\
  length (snowflakes (Initialize step_source zeroGame (1920, 1080)%Z 42)) = 300%nat.
Proof.
  split; [reflexivity|]. split; [reflexivity|].
  apply (Initialize_creates_particles step_source step_source_range
           zeroGame 1920 1080 42); reflexivity.
Defined.

Section Frame.

Variable source : Z -> nat -> float64.

Lemma Update_same_attributes (g : Game) (now : Z) :
  Forall2 same_attributes (snowflakes g) (snowflakes (fst (Update source g now))).
Proof.
  destruct (Update_fields source g now) as (_ & _ & _ & _ & _ & E).
  rewrite E. apply updateSnowflakes_Forall2.
  intros f r _. apply updateSnowflake_same_attributes.
Qed.

Lemma Update_length (g : Game) (now : Z) :
  length (snowflakes (fst (Update source g now))) = length (snowflakes g).
Proof.
  symmetry. eapply Forall2_length. apply Update_same_attributes.
Qed.

Lemma Update_keeps_drift (g : Game) (now : Z) :
  Forall (fun f => drift f = 0) (snowflakes g) ->
  Forall (fun f => drift f = 0) (snowflakes (fst (Update source g now))).
Proof.
  intros H. pose proof (Update_same_attributes g now) as F2.
  induction F2 as [|f f' fs fs' Hff _ IH]; [constructor|].
  inversion H; subst. constructor; [|now apply IH].
  destruct Hff as (_ & _ & Hd & _). congruence.
Qed.

Lemma Initialize_length_drift (g0 : Game) (screen : Z * Z) (now : Z) :
  let g := Initialize source g0 screen now in
  length (snowflakes g) = 300%nat /\
  Forall (fun f => drift f = 0) (snowflakes g).
Proof.
  destruct screen as [w h]. unfold Initialize.
  pose proof (fillSnowflakes_length source w h numSnowflakes (rand.New now)) as L.
  pose proof (fillSnowflakes_Forall source (fun f => drift f = 0) w h
                (fun r => eq_refl) numSnowflakes (rand.New now)) as F.
  destruct (fillSnowflakes source numSnowflakes w h (rand.New now)) as [fs r].
  simpl in *. now split.
Qed.

(** C7. [Update] changes only positions and the wind: the canvas size is
    kept, the particles correspond one to one, in order, and each keeps
    its size, speed, drift and windSpeed; after [Initialize] and any number
    of frames there are exactly 300 particles and every drift is 0. *)
Theorem Update_frame_condition :
  (forall g now,
     let g' := fst (Update source g now) in
     screenWidth g' = screenWidth g /\ screenHeight g' = screenHeight g /\
     length (snowflakes g') = length (snowflakes g) /\
     Forall2 same_attributes (snowflakes g) (snowflakes g')) /\
  (forall g0 screen clock n,
     let g := run source g0 screen clock n in
     length (snowflakes g) = 300%nat /\
     Forall (fun f => drift f = 0) (snowflakes g)).
Proof.
  split.
  - intros g now.
    destruct (Update_fields source g now) as (_ & _ & _ & Ew & Eh & _).
    repeat split; auto using Update_length, Update_same_attributes.
  - intros g0 screen clock n. unfold run.
    induction n as [|n [IHl IHd]]; simpl.
    + apply Initialize_length_drift.
    + split.
      * now rewrite Update_length.
      * now apply Update_keeps_drift.
Qed.

(** C10. [Update] returns a nil error from every state and at every clock
    reading. *)
Theorem Update_returns_nil (g : Game) (now : Z) :
  snd (Update source g now) = nil_error.
Proof.
  unfold Update.
  destruct (updateWindTarget source (windTarget g) (windChangeTime g)
              (rand.New now)) as [[t c] r1].
  destruct (updateSnowflakes source (wind g * 0.99 + t * 0.01)
              (screenWidth g) (screenHeight g) (snowflakes g) r1) as [fs r2].
  reflexivity.
Qed.

End Frame.

(** ** The wind *)

Section Wind.

Variable source : Z -> nat -> float64.
Hypothesis source_range : forall s k, 0 <= source s k < 1.

(** The two branches of the re-roll, with the generator each leaves. *)
Lemma updateWindTarget_cases (target countdown : float64) (now : Z) :
  let c := countdown - 1.0 in
  (c <= 0 ->
     updateWindTarget source target countdown (rand.New now) =
     (((source now 0%nat * 2 - 1.0) * 0.8, 60 + source now 1%nat * 120),
      rand.mkRand now 2)) /\
  (0 < c ->
     updateWindTarget source target countdown (rand.New now) =
     ((target, c), rand.mkRand now 0)).
Proof.
  simpl. unfold updateWindTarget. split; intros Hc.
  - apply leb_spec in Hc. rewrite Hc. reflexivity.
  - apply leb_false in Hc. rewrite Hc. reflexivity.
Qed.

Lemma reroll_range (now : Z) :
  - 0.8 <= (source now 0%nat * 2 - 1.0) * 0.8 <= 0.8 /\
  60 <= 60 + source now 1%nat * 120 < 180.
Proof.
  pose proof (source_range now 0%nat). pose proof (source_range now 1%nat).
  repeat split; lra.
Qed.


Lemma updateWindTarget_bounded (target countdown : float64) (now : Z) :
  - 0.8 <= target <= 0.8 ->
  - 0.8 <= fst (fst (updateWindTarget source target countdown (rand.New now)))
    <= 0.8.
Proof.
  intros Ht.
  destruct (updateWindTarget_cases target countdown now) as [Hre Hkeep].
  destruct (Qlt_le_dec 0 (countdown - 1.0)) as [Hc|Hc].
  - now rewrite (Hkeep Hc).
  - rewrite (Hre Hc). simpl. apply reroll_range.
Qed.

Lemma Update_wind_bounded (g : Game) (now : Z) :
  wind_bounded g -> wind_bounded (fst (Update source g now)).
Proof.
  intros [Ht Hw]. unfold wind_bounded.
  destruct (Update_fields source g now) as (Et & _ & Ew & _).
  pose proof (updateWindTarget_bounded (windTarget g) (windChangeTime g) now Ht)
    as B.
  rewrite Ew, Et. split; [exact B|]. lra.
Qed.

(** C4. Every [Update] keeps the wind target and the wind in [-0.8, 0.8] once
    they are there.  After [Initialize] and any number of frames the wind
    target lies in [-0.8, 0.8] and so does the wind: the wind starts at 0 and
    each frame replaces it by the mean of itself and the target, weighted
    0.99 and 0.01. *)
Theorem wind_invariant (g0 : Game) (screen : Z * Z) (clock : nat -> Z) (n : nat) :
  let g := run source g0 screen clock n in
  let g' := run source g0 screen clock (S n) in
  (forall s now,
     - 0.8 <= windTarget s <= 0.8 /\ - 0.8 <= wind s <= 0.8 ->
     - 0.8 <= windTarget (fst (Update source s now)) <= 0.8 /\
     - 0.8 <= wind (fst (Update source s now)) <= 0.8) /\
  (- 0.8 <= windTarget g <= 0.8 /\ - 0.8 <= wind g <= 0.8) /\
  wind (run source g0 screen clock 0) = 0 /\
  wind g' = wind g * 0.99 + windTarget g' * 0.01.
Proof.
  cbv zeta. split; [|split; [|split]].
  - intros s now. apply Update_wind_bounded.
  - unfold run. induction n as [|n IH]; cbn [frames].
    + destruct screen as [w h]. unfold Initialize.
      destruct (fillSnowflakes source numSnowflakes w h (rand.New (clock 0%nat))).
      simpl. split; lra.
    + apply Update_wind_bounded. exact IH.
  - unfold run. cbn [frames]. destruct screen as [w h]. unfold Initialize.
    destruct (fillSnowflakes source numSnowflakes w h (rand.New (clock 0%nat))).
    reflexivity.
  - unfold run. cbn [frames].
    destruct (Update_fields source (frames source clock n
                (Initialize source g0 screen (clock 0%nat))) (clock (S n)))
      as (Et & _ & Ew & _).
    now rewrite Ew, Et.
Qed.

End Wind.


(** C4, ten frames into a run on the stepping stream. *)
Lemma wind_invariant_witness :
  - 0.8 <= wind (run step_source zeroGame (1920, 1080)%Z (fun k => Z.of_nat k) 10)
    <= 0.8.
Proof.
  apply (wind_invariant step_source step_source_range zeroGame (1920, 1080)%Z
           (fun k => Z.of_nat k) 10).
Defined.

(** ** Positions against the canvas *)

Section Box.

Variable source : Z -> nat -> float64.

(** The vertical reset: a particle below the bottom edge goes to the top at
    a drawn abscissa, any other is left as it is. *)
Lemma reset_cases (w h : Z) (f : Snowflake) (r : rand.Rand) :
  let f' := fst (reset source w h f r) in
  (F64.of_int h < y f ->
     y f' = 0 /\ x f' = source (rand.seed r) (rand.drawn r) * F64.of_int w) /\
  (y f <= F64.of_int h -> f' = f).
Proof.
  simpl. unfold reset. split; intros Hy.
  - apply gtb_spec in Hy. rewrite Hy. now split.
  - apply gtb_false in Hy. rewrite Hy. reflexivity.
Qed.

(** The horizontal wrap: the three branches. *)
Lemma wrap_cases (w : Z) (f : Snowflake) :
  y (wrap w f) = y f /\
  (x f < 0 -> x (wrap w f) = F64.of_int w) /\
  (F64.of_int w < x f -> 0 <= x f -> x (wrap w f) = 0) /\
  (0 <= x f <= F64.of_int w -> wrap w f = f).
Proof.
  unfold wrap. split; [|split; [|split]].
  - destruct (x f <? 0); [reflexivity|].
    destruct (x f >? F64.of_int w); reflexivity.
  - intros Hx. apply ltb_spec in Hx. now rewrite Hx.
  - intros Hx H0. apply ltb_false in H0. rewrite H0.
    apply gtb_spec in Hx. now rewrite Hx.
  - intros [H0 Hx]. apply ltb_false in H0. rewrite H0.
    apply gtb_false in Hx. now rewrite Hx.
Qed.

Lemma wrap_range (w : Z) (f : Snowflake) :
  0 <= F64.of_int w -> 0 <= x (wrap w f) <= F64.of_int w.
Proof.
  intros Hw. destruct (wrap_cases w f) as (_ & Hlt & Hgt & Hin).
  destruct (Qlt_le_dec (x f) 0) as [H0|H0].
  - rewrite (Hlt H0). lra.
  - destruct (Qlt_le_dec (F64.of_int w) (x f)) as [H1|H1].
    + rewrite (Hgt H1 H0). lra.
    + rewrite (Hin (conj H0 H1)). lra.
Qed.

Lemma reset_range (w h : Z) (f : Snowflake) (r : rand.Rand) :
  0 <= F64.of_int h -> 0 <= y f ->
  0 <= y (fst (reset source w h f r)) <= F64.of_int h.
Proof.
  intros Hh Hy. destruct (reset_cases w h f r) as [Hre Hkeep].
  destruct (Qlt_le_dec (F64.of_int h) (y f)) as [H1|H1].
  - destruct (Hre H1) as [E _]. rewrite E. lra.
  - rewrite (Hkeep H1). lra.
Qed.

Lemma wrap_reset_closed_box (w h : Z) (f : Snowflake) (r : rand.Rand) :
  0 <= F64.of_int w -> 0 <= F64.of_int h -> 0 <= y f ->
  in_closed_box w h (wrap w (fst (reset source w h f r))).
Proof.
  intros Hw Hh Hy. split.
  - now apply wrap_range.
  - destruct (wrap_cases w (fst (reset source w h f r))) as [E _].
    rewrite E. now apply reset_range.
Qed.

Lemma updateSnowflake_closed_box (wnd : float64) (w h : Z) (f : Snowflake)
    (r : rand.Rand) :
  in_closed_box w h f -> 0 <= speed f ->
  in_closed_box w h (fst (updateSnowflake source wnd w h f r)).
Proof.
  intros [Hx Hy] Hs.
  unfold updateSnowflake, rand.bind.
  pose proof (wrap_reset_closed_box w h (move wnd f) r) as B.
  destruct (reset source w h (move wnd f) r) as [f1 r1]. simpl in *.
  apply B; lra.
Qed.

Lemma Forall2_transfer (P Q : Snowflake -> Prop) (fs fs' : list Snowflake) :
  Forall2 (fun f f' => P f -> Q f') fs fs' -> Forall P fs -> Forall Q fs'.
Proof.
  induction 1 as [|f f' fs fs' Hff _ IH]; intros HP; [constructor|].
  inversion HP; subst. constructor; auto.
Qed.

(** A frame keeps the pair of facts that make the next frame safe: the
    closed box and a non-negative speed. *)
Lemma Update_keeps_box_and_speed (g : Game) (now : Z) :
  let w := screenWidth g in
  let h := screenHeight g in
  Forall (fun f => in_closed_box w h f /\ 0 <= speed f) (snowflakes g) ->
  Forall (fun f => in_closed_box w h f /\ 0 <= speed f)
         (snowflakes (fst (Update source g now))).
Proof.
  intros w h H.
  destruct (Update_fields source g now) as (_ & _ & _ & _ & _ & Es).
  rewrite Es. eapply Forall2_transfer; [|exact H].
  apply updateSnowflakes_Forall2.
  intros f r _ [Hb Hs]. split.
  - now apply updateSnowflake_closed_box.
  - destruct (updateSnowflake_same_attributes source
                (wind (fst (Update source g now))) w h f r) as (_ & E & _).
    fold w h. rewrite E. exact Hs.
Qed.

Lemma frames_screen (clock : nat -> Z) (n : nat) (g : Game) :
  screenWidth (frames source clock n g) = screenWidth g /\
  screenHeight (frames source clock n g) = screenHeight g.
Proof.
  induction n as [|n [IHw IHh]]; simpl; [now split|].
  destruct (Update_fields source (frames source clock n g) (clock (S n)))
    as (_ & _ & _ & Ew & Eh & _).
  rewrite Ew, Eh. now split.
Qed.

Lemma Initialize_screen (g0 : Game) (w h now : Z) :
  screenWidth (Initialize source g0 (w, h) now) = w /\
  screenHeight (Initialize source g0 (w, h) now) = h.
Proof.
  unfold Initialize.
  destruct (fillSnowflakes source numSnowflakes w h (rand.New now)).
  split; reflexivity.
Qed.

Hypothesis source_range : forall s k, 0 <= source s k < 1.

Lemma Initialize_box_and_speed (g0 : Game) (w h now : Z) :
  (0 < w)%Z -> (0 < h)%Z ->
  Forall (fun f => in_closed_box w h f /\ 0 <= speed f)
         (snowflakes (Initialize source g0 (w, h) now)).
Proof.
  intros Hw Hh. unfold Initialize.
  pose proof (fillSnowflakes_Forall source
                (fun f => in_closed_box w h f /\ 0 <= speed f) w h) as F.
  specialize (F (fun r =>
    match newSnowflake_created source source_range w h r Hw Hh with
    | conj _ (conj (conj Hs _) (conj (conj Hx0 Hx1) (conj Hy0 Hy1))) =>
        conj (conj (conj Hx0 (Qlt_le_weak _ _ Hx1))
                   (conj Hy0 (Qlt_le_weak _ _ Hy1)))
             (Qle_trans 0 6.0 _ ltac:(discriminate) Hs)
    end) numSnowflakes (rand.New now)).
  destruct (fillSnowflakes source numSnowflakes w h (rand.New now)) as [fs r].
  exact F.
Qed.

(** C1, as the code has it.  After [Initialize] on a canvas of positive
    width and height and after every frame that follows, every particle
    lies in the closed box: 0 <= x <= width and 0 <= y <= height.  The
    right edge is reached: the wrap sets an [x] driven below 0 to exactly
    the width. *)
Theorem closed_box_invariant (g0 : Game) (w h : Z) (clock : nat -> Z) (n : nat) :
  (0 < w)%Z -> (0 < h)%Z ->
  Forall (fun f => 0 <= x f <= F64.of_int w /\ 0 <= y f <= F64.of_int h)
         (snowflakes (run source g0 (w, h) clock n)) /\
  (forall f r, x f < 0 -> y f <= F64.of_int h ->
     x (wrap w (fst (reset source w h f r))) = F64.of_int w).
Proof.
  intros Hw Hh. split.
  - assert (I : Forall (fun f => in_closed_box w h f /\ 0 <= speed f)
                  (snowflakes (run source g0 (w, h) clock n))).
    { unfold run. induction n as [|n IH]; cbn [frames].
      - now apply Initialize_box_and_speed.
      - pose proof (Update_keeps_box_and_speed
                      (frames source clock n
                         (Initialize source g0 (w, h) (clock 0%nat)))
                      (clock (S n))) as St.
        destruct (frames_screen clock n
                    (Initialize source g0 (w, h) (clock 0%nat))) as [Ew Eh].
        destruct (Initialize_screen g0 w h (clock 0%nat)) as [Iw Ih].
        cbv zeta in St. rewrite Ew, Eh, Iw, Ih in St.
        apply St. exact IH. }
    eapply Forall_impl; [|exact I]. intros f [Hb _]. exact Hb.
  - intros f r Hx Hy.
    destruct (reset_cases w h f r) as [_ Hkeep]. rewrite (Hkeep Hy).
    now apply wrap_cases.
Qed.

(** C2. If before [Update] every particle has 0 <= x <= width,
    0 <= y <= height and a non-negative speed, then after [Update] every
    particle has 0 <= x <= width and 0 <= y <= height. *)
Theorem Update_keeps_closed_box (g : Game) (now : Z) :
  Forall (fun f => 0 <= x f <= F64.of_int (screenWidth g) /\
                   0 <= y f <= F64.of_int (screenHeight g) /\
                   0 <= speed f) (snowflakes g) ->
  let g' := fst (Update source g now) in
  Forall (fun f => 0 <= x f <= F64.of_int (screenWidth g') /\
                   0 <= y f <= F64.of_int (screenHeight g'))
         (snowflakes g').
Proof.
  intros H g'.
  destruct (Update_fields source g now) as (_ & _ & _ & Ew & Eh & Es).
  fold g' in Ew, Eh, Es. rewrite Ew, Eh, Es.
  eapply Forall2_transfer; [|exact H].
  apply updateSnowflakes_Forall2.
  intros f r _ (Hx & Hy & Hs).
  now apply updateSnowflake_closed_box.
Qed.

End Box.

(** C1 as stated fails one frame after [Initialize]: on the stream that
    always draws 0 every particle starts at x = 0, the first target is -0.8,
    the wind -0.008 pushes x below 0 and the wrap puts it at exactly 1920,
    which is not below the width. *)
Lemma half_open_box_fails :
  ~ Forall (in_half_open_box 1920 1080)
      (snowflakes (run zero_source zeroGame (1920, 1080)%Z (fun _ => 0%Z) 1)).
Proof.
  intros H.
  assert (E : option_map x (hd_error
                (snowflakes (run zero_source zeroGame (1920, 1080)%Z
                               (fun _ => 0%Z) 1))) = Some (F64.of_int 1920))
    by (vm_compute; reflexivity).
  destruct (snowflakes (run zero_source zeroGame (1920, 1080)%Z (fun _ => 0%Z) 1))
    as [|f rest]; [discriminate|].
  simpl in E. injection E as E.
  inversion H as [|? ? [[_ Hx] _] _]; subst.
  rewrite E in Hx. revert Hx. apply Qlt_irrefl.
Qed.

(** C1 as amended, three frames into a run on the stepping stream. *)
Lemma closed_box_invariant_witness :
  (0 < 1920)%Z /\ (0 < 1080)%Z /\
  Forall (fun f => 0 <= x f <= F64.of_int 1920 /\ 0 <= y f <= F64.of_int 1080)
    (snowflakes (run step_source zeroGame (1920, 1080)%Z (fun k => Z.of_nat k) 3)).
Proof.
  split; [reflexivity|]. split; [reflexivity|].
  apply (closed_box_invariant step_source step_source_range zeroGame 1920 1080
           (fun k => Z.of_nat k) 3); reflexivity.
Defined.

(** C2, at a state with one particle about to fall past the bottom edge and
    one about to leave on the right. *)
Lemma Update_keeps_closed_box_witness :
  Forall (fun f => 0 <= x f <= F64.of_int 1920 /\ 0 <= y f <= F64.of_int 1080)
    (snowflakes (fst (Update step_source
       (mkGame [mkSnowflake 5 1079 2 7 0 0; mkSnowflake 1920 3 1 6 0 0]
               1920 1080 0.8 0.8 30) 9))).
Proof.
  apply (Update_keeps_closed_box step_source
           (mkGame [mkSnowflake 5 1079 2 7 0 0; mkSnowflake 1920 3 1 6 0 0]
                   1920 1080 0.8 0.8 30) 9).
  repeat constructor; vm_compute; discriminate.
Defined.

(** ** Determinism *)

Section Determinism.

Variable source : Z -> nat -> float64.





End Determinism.


(** The seed of [Initialize] alone does not fix a run: [Update] seeds a new
    generator from the clock at every frame.  Two runs that read the same
    clock in [Initialize] and different clocks in the first [Update] put
    their second particle at different abscissas. *)
Example later_seeds_matter :
  let run1 := run step_source zeroGame (1920, 1080)%Z (fun _ => 0%Z) 1 in
  let run2 := run step_source zeroGame (1920, 1080)%Z (fun k => Z.of_nat k) 1 in
  exists a b,
    option_map x (nth_error (snowflakes run1) 1) = Some a /\
    option_map x (nth_error (snowflakes run2) 1) = Some b /\
    ~ a == b.
Proof.
  eexists. eexists. split; [vm_compute; reflexivity|].
  split; [vm_compute; reflexivity|].
  vm_compute. discriminate.
Qed.

(** ** Draw *)

Lemma wrap_small (z : Z) : (- 2 ^ 63 <= z < 2 ^ 63)%Z -> int.wrap z = z.
Proof.
  intros H. unfold int.wrap. rewrite Z.mod_small; lia.
Qed.

Lemma in_upto (lo hi k : Z) : In k (int.upto lo hi) <-> (lo <= k <= hi)%Z.
Proof.
  unfold int.upto. rewrite in_map_iff. split.
  - intros (i & E & Hi). apply in_seq in Hi. lia.
  - intros H. exists (Z.to_nat (k - lo)). split; [lia|].
    apply in_seq. lia.
Qed.

(** Truncation never rounds up past an integer bound. *)
Lemma to_int_le_1 (q : float64) : q <= 1 -> (F64.to_int q <= 1)%Z.
Proof.
  destruct q as [n d]. unfold Qle, F64.to_int. simpl. intros H.
  rewrite <- (Z.quot_same (Zpos d)) by lia.
  apply Z.quot_le_mono; lia.
Qed.

Lemma to_int_exact (q : float64) (k : Z) : q == inject_Z k -> F64.to_int q = k.
Proof.
  destruct q as [n d]. unfold Qeq, F64.to_int. simpl. intros H.
  replace n with (k * Zpos d)%Z by lia.
  apply Z.quot_mul. lia.
Qed.

(** Inside the loops of [Draw] no operation leaves the range of [int]. *)
Lemma square_sum_bound (s dx dy : Z) :
  (1 < s < 2 ^ 31)%Z -> (- (s / 2) <= dx <= s / 2)%Z ->
  (- (s / 2) <= dy <= s / 2)%Z ->
  (0 <= dx * dx <= 2 ^ 60 /\ 0 <= dy * dy <= 2 ^ 60 /\ 0 <= s * s < 2 ^ 62)%Z.
Proof.
  intros Hs Hdx Hdy.
  assert (Hh : (0 <= s / 2 < 2 ^ 30)%Z)
    by (split; [apply Z.div_pos; lia | apply Z.div_lt_upper_bound; lia]).
  change (2 ^ 30)%Z with 1073741824%Z in Hh.
  change (2 ^ 31)%Z with 2147483648%Z in Hs.
  change (2 ^ 60)%Z with (1073741824 * 1073741824)%Z.
  change (2 ^ 62)%Z with (2147483648 * 2147483648)%Z.
  repeat split; nia.
Qed.

(** An offset that passes the test lies within the bounds of the loops. *)
Lemma test_within_loops (s dx dy : Z) :
  (1 < s)%Z -> (dx * dx + dy * dy <= s * s / 4)%Z ->
  (- (s / 2) <= dx <= s / 2)%Z.
Proof.
  intros Hs H.
  assert (H4 : (4 * (s * s / 4) <= s * s)%Z) by (apply Z.mul_div_le; lia).
  assert (Hd : (- s <= 2 * dx <= s)%Z) by nia.
  pose proof (Z.div_mod s 2 ltac:(lia)) as E.
  pose proof (Z.mod_pos_bound s 2 ltac:(lia)) as B.
  lia.
Qed.

Lemma loop_bounds (s : Z) :
  (1 < s < 2 ^ 31)%Z ->
  int.quot (int.neg s) 2 = (- (s / 2))%Z /\ int.quot s 2 = (s / 2)%Z.
Proof.
  intros Hs.
  assert (Hh : (0 <= s / 2 < 2 ^ 30)%Z)
    by (split; [apply Z.div_pos; lia | apply Z.div_lt_upper_bound; lia]).
  unfold int.quot, int.neg.
  rewrite (wrap_small (- s)) by lia.
  rewrite Z.quot_opp_l by lia.
  rewrite Z.quot_div_nonneg by lia.
  split; apply wrap_small; lia.
Qed.

Lemma test_exact (s dx dy : Z) :
  (1 < s < 2 ^ 31)%Z -> (- (s / 2) <= dx <= s / 2)%Z ->
  (- (s / 2) <= dy <= s / 2)%Z ->
  (int.add (int.mul dx dx) (int.mul dy dy) <=? int.quot (int.mul s s) 4)%Z
  = (dx * dx + dy * dy <=? Z.quot (s * s) 4)%Z.
Proof.
  intros Hs Hdx Hdy.
  destruct (square_sum_bound s dx dy Hs Hdx Hdy) as (Bx & By & Bs).
  unfold int.add, int.mul, int.quot.
  rewrite (wrap_small (dx * dx)), (wrap_small (dy * dy)), (wrap_small (s * s))
    by lia.
  rewrite (wrap_small (dx * dx + dy * dy)) by lia.
  rewrite wrap_small; [reflexivity|].
  rewrite Z.quot_div_nonneg by lia.
  assert (0 <= s * s / 4 <= s * s)%Z
    by (split; [apply Z.div_pos; lia | apply Z.div_le_upper_bound; lia]).
  lia.
Qed.

Lemma pixel_exact (s p d : Z) :
  (1 < s < 2 ^ 31)%Z -> (- 2 ^ 62 < p < 2 ^ 62)%Z -> (- (s / 2) <= d <= s / 2)%Z ->
  int.add p d = (p + d)%Z.
Proof.
  intros Hs Hp Hd.
  assert (Hh : (0 <= s / 2 < 2 ^ 30)%Z)
    by (split; [apply Z.div_pos; lia | apply Z.div_lt_upper_bound; lia]).
  apply wrap_small. lia.
Qed.

(** The pixels of a particle whose truncated size exceeds 1. *)
Lemma drawSnowflake_disc (flake : Snowflake) :
  let s := F64.to_int (size flake) in
  let px := F64.to_int (x flake) in
  let py := F64.to_int (y flake) in
  (1 < s < 2 ^ 31)%Z -> (- 2 ^ 62 < px < 2 ^ 62)%Z -> (- 2 ^ 62 < py < 2 ^ 62)%Z ->
  forall op,
    In op (drawSnowflake flake) <->
    exists dx dy, op = Image_Set (px + dx) (py + dy) White /\
                  (dx * dx + dy * dy <= Z.quot (s * s) 4)%Z.
Proof.
  intros s px py Hs Hpx Hpy op.
  unfold drawSnowflake. fold s px py.
  destruct (Z.leb_spec s 1) as [Hle|_]; [lia|].
  destruct (loop_bounds s Hs) as [Elo Ehi]. rewrite Elo, Ehi.
  split.
  - intros H. apply in_flat_map in H. destruct H as (dx & Hdx & H).
    apply in_flat_map in H. destruct H as (dy & Hdy & H).
    apply in_upto in Hdx. apply in_upto in Hdy.
    rewrite (test_exact s dx dy Hs Hdx Hdy) in H.
    rewrite (pixel_exact s px dx Hs Hpx Hdx) in H.
    rewrite (pixel_exact s py dy Hs Hpy Hdy) in H.
    destruct (Z.leb_spec (dx * dx + dy * dy) (Z.quot (s * s) 4)) as [T|T].
    + destruct H as [H|[]]. exists dx, dy. now split.
    + destruct H.
  - intros (dx & dy & Eop & T).
    assert (T' : (dx * dx + dy * dy <= s * s / 4)%Z)
      by (rewrite <- Z.quot_div_nonneg by nia; exact T).
    assert (Hdx : (- (s / 2) <= dx <= s / 2)%Z)
      by (apply (test_within_loops s dx dy); lia).
    assert (Hdy : (- (s / 2) <= dy <= s / 2)%Z)
      by (apply (test_within_loops s dy dx); lia).
    apply in_flat_map. exists dx. split; [now apply in_upto|].
    apply in_flat_map. exists dy. split; [now apply in_upto|].
    rewrite (test_exact s dx dy Hs Hdx Hdy).
    rewrite (pixel_exact s px dx Hs Hpx Hdx).
    rewrite (pixel_exact s py dy Hs Hpy Hdy).
    apply Z.leb_le in T. rewrite T. left. now symmetry.
Qed.

(** [Draw] clears the image and then plots the particles one after the other,
    each by [drawSnowflake]. *)
Lemma Draw_each_particle (g : Game) (op : ImageOp) :
  In op (Draw g) <->
  op = Image_Fill (RGBA 0 0 0 255) \/
  exists flake, In flake (snowflakes g) /\ In op (drawSnowflake flake).
Proof.
  unfold Draw. simpl. rewrite in_flat_map. intuition congruence.
Qed.

(** C3, as the code has it.  [Draw] truncates the size of the particle to an
    integer before it tests it.  If the truncated size is <= 1, which covers
    every size <= 1, exactly one white pixel is plotted, at the truncated
    position.  Otherwise the pixels plotted are exactly those at the offsets
    (dx, dy) with dx*dx + dy*dy <= s*s/4, for s the truncated size and the
    quotient of integers, all white; for a size equal to 4 these are the
    offsets with dx*dx + dy*dy <= 4. *)
Theorem drawSnowflake_plots (flake : Snowflake) :
  let s := F64.to_int (size flake) in
  let px := F64.to_int (x flake) in
  let py := F64.to_int (y flake) in
  (s < 2 ^ 31)%Z -> (- 2 ^ 62 < px < 2 ^ 62)%Z -> (- 2 ^ 62 < py < 2 ^ 62)%Z ->
  (size flake <= 1 -> drawSnowflake flake = [Image_Set px py White]) /\
  ((s <= 1)%Z -> drawSnowflake flake = [Image_Set px py White]) /\
  ((1 < s)%Z ->
     forall op,
       In op (drawSnowflake flake) <->
       exists dx dy, op = Image_Set (px + dx) (py + dy) White /\
                     (dx * dx + dy * dy <= Z.quot (s * s) 4)%Z) /\
  (size flake == 4 ->
     forall op,
       In op (drawSnowflake flake) <->
       exists dx dy, op = Image_Set (px + dx) (py + dy) White /\
                     (dx * dx + dy * dy <= 4)%Z).
Proof.
  intros s px py Hs Hpx Hpy.
  assert (Hone : (s <= 1)%Z -> drawSnowflake flake = [Image_Set px py White]).
  { intros H. unfold drawSnowflake. fold s px py.
    apply Z.leb_le in H. now rewrite H. }
  split; [|split; [|split]].
  - intros H. apply Hone. now apply to_int_le_1.
  - exact Hone.
  - intros H. apply drawSnowflake_disc; fold s px py; lia.
  - intros H op.
    assert (E : s = 4%Z) by (apply to_int_exact; exact H).
    rewrite (drawSnowflake_disc flake) by (fold s px py; lia).
    fold s px py. rewrite E. reflexivity.
Qed.

(** C3 as stated fails for a particle of size 2.875: the offset (1, 1)
    satisfies 1*1 + 1*1 <= 2.875*2.875/4, but [Draw] tests against the
    truncated size 2 and does not plot it. *)
Lemma disc_rule_on_size_fails :
  1 < size flake_2_875 /\ ~ disc_rule_on_size flake_2_875.
Proof.
  split; [reflexivity|].
  intros H. specialize (H 1%Z 1%Z). destruct H as [_ H].
  assert (P : plots flake_2_875 1 1) by (apply H; vm_compute; discriminate).
  unfold plots in P. vm_compute in P.
  repeat (destruct P as [P|P]; [discriminate P|]). exact P.
Qed.

(** C3 as amended, at the particle of size 2.875: five pixels, a plus sign. *)
Lemma drawSnowflake_plots_witness :
  In (Image_Set 11 20 White) (drawSnowflake flake_2_875).
Proof.
  pose proof (drawSnowflake_plots flake_2_875) as B. cbv zeta in B.
  destruct B as (_ & _ & B & _);
    [reflexivity | split; reflexivity | split; reflexivity |].
  apply B; [reflexivity|].
  exists 1%Z, 0%Z. split; [reflexivity|]. vm_compute. discriminate.
Defined.

(** ** SetWindowToBottom *)

Lemma SetWindowToBottom_found (user32 : User32) :
  foundWindow user32 <> 0%Z ->
  SetWindowToBottom user32 = reposition user32 (foundWindow user32).
Proof.
  unfold SetWindowToBottom, foundWindow. intros H.
  destruct (FindWindowW user32 None (Some "Snow Wallpaper"%string) =? 0)%Z;
    [|reflexivity].
  apply Z.eqb_neq in H. now rewrite H.
Qed.

(** C8, as the code has it.  On a tick where the render window is found, the
    routine first sends it to the bottom of the Z order with the flags
    no-move, no-size, no-activate and show-window.  If some window had the
    focus (its handle is not null) and it is not the render window, one more
    call follows, for that window: its insert-after reference is 0, the top
    of the Z order, and its flags are no-move, no-size and show-window; the
    no-activate flag is not among them.  Otherwise no call follows. *)
Theorem SetWindowToBottom_foreground (user32 : User32) :
  let hwnd := foundWindow user32 in
  let fgHwnd := GetForegroundWindow user32 in
  hwnd <> 0%Z ->
  (fgHwnd <> 0%Z -> fgHwnd <> hwnd ->
     SetWindowToBottom user32 =
       [SetWindowPos hwnd HWND_BOTTOM 0 0 0 0 0x53;
        SetWindowPos fgHwnd 0 0 0 0 0 0x43]) /\
  (fgHwnd = 0%Z \/ fgHwnd = hwnd ->
     SetWindowToBottom user32 = [SetWindowPos hwnd HWND_BOTTOM 0 0 0 0 0x53]) /\
  has_flag 0x53 SWP_NOMOVE /\ has_flag 0x53 SWP_NOSIZE /\
  has_flag 0x53 SWP_NOACTIVATE /\ has_flag 0x53 SWP_SHOWWINDOW /\
  has_flag 0x43 SWP_NOMOVE /\ has_flag 0x43 SWP_NOSIZE /\
  has_flag 0x43 SWP_SHOWWINDOW /\ Z.land 0x43 SWP_NOACTIVATE = 0%Z.
Proof.
  intros hwnd fgHwnd Hfound.
  rewrite (SetWindowToBottom_found user32 Hfound). fold hwnd.
  unfold reposition. fold fgHwnd.
  split; [|split].
  - intros H0 Hne. apply Z.eqb_neq in H0, Hne. rewrite H0, Hne. reflexivity.
  - intros [E|E].
    + apply Z.eqb_eq in E. rewrite E. reflexivity.
    + apply Z.eqb_eq in E. rewrite E, andb_false_r. reflexivity.
  - repeat split.
Qed.

(** C8 as stated fails on a desktop where the render window is 100 and window
    200 has the focus: the only call for window 200 carries the flags 0x43,
    without no-activate. *)
Lemma foreground_call_can_activate :
  foundWindow desktop_100_200 <> 0%Z /\
  GetForegroundWindow desktop_100_200 <> foundWindow desktop_100_200 /\
  ~ repositions_without_activation (SetWindowToBottom desktop_100_200)
      (GetForegroundWindow desktop_100_200).
Proof.
  split; [discriminate|]. split; [discriminate|].
  intros (after & X & Y & cx & cy & flags & Hin & _ & _ & Hact).
  vm_compute in Hin.
  destruct Hin as [E|[E|[]]].
  - discriminate E.
  - injection E as _ _ _ _ _ E. subst flags. discriminate Hact.
Qed.

(** C8 as amended, on the same desktop. *)
Lemma SetWindowToBottom_foreground_witness :
  SetWindowToBottom desktop_100_200 =
  [SetWindowPos 100 HWND_BOTTOM 0 0 0 0 0x53; SetWindowPos 200 0 0 0 0 0 0x43].
Proof.
  apply (SetWindowToBottom_foreground desktop_100_200); discriminate.
Defined.

(** * Further properties of the simulation *)

Section Draws.

Variable source : Z -> nat -> float64.

Lemma newSnowflake_draws (w h : Z) (r : rand.Rand) :
  newSnowflake source w h r =
  (flake_of_draws source w h (rand.seed r) (rand.drawn r),
   rand.mkRand (rand.seed r) (4 + rand.drawn r)).
Proof. reflexivity. Qed.

Lemma fillSnowflakes_nth (w h : Z) (n : nat) :
  forall (r : rand.Rand) (i : nat), (i < n)%nat ->
  nth_error (fst (fillSnowflakes source n w h r)) i =
  Some (flake_of_draws source w h (rand.seed r) (rand.drawn r + 4 * i)).
Proof.
  induction n as [|n IH]; intros r i Hi; [lia|].
  cbn [fillSnowflakes]. unfold rand.bind. rewrite newSnowflake_draws.
  specialize (IH (rand.mkRand (rand.seed r) (4 + rand.drawn r))).
  destruct (fillSnowflakes source n w h
              (rand.mkRand (rand.seed r) (4 + rand.drawn r))) as [fs r2].
  cbn [rand.ret fst] in *.
  destruct i as [|i]; cbn [nth_error].
  - now rewrite Nat.mul_0_r, Nat.add_0_r.
  - rewrite IH by lia. cbn [rand.seed rand.drawn].
    do 2 f_equal. lia.
Qed.

(** The particles of [Initialize] share no draw: particle [i] is built from
    the draws 4i, 4i+1, 4i+2 and 4i+3 of the stream seeded by the clock, in
    the order x, y, size, speed. *)
Theorem Initialize_particle_draws (g0 : Game) (w h now : Z) (i : nat) :
  (i < 300)%nat ->
  nth_error (snowflakes (Initialize source g0 (w, h) now)) i =
  Some (mkSnowflake (source now (4 * i)%nat * F64.of_int w)
                    (source now (4 * i + 1)%nat * F64.of_int h)
                    (1.0 + source now (4 * i + 2)%nat * 3.0)
                    (6.0 + source now (4 * i + 3)%nat * 10.0) 0 0).
Proof.
  intros Hi. unfold Initialize.
  pose proof (fillSnowflakes_nth w h numSnowflakes (rand.New now) i Hi) as E.
  destruct (fillSnowflakes source numSnowflakes w h (rand.New now)) as [fs r].
  cbn [snowflakes fst rand.New rand.seed rand.drawn] in *.
  rewrite E. unfold flake_of_draws. rewrite Nat.add_0_l.
  replace (4 * i + 1)%nat with (S (4 * i)) by lia.
  replace (4 * i + 2)%nat with (S (S (4 * i))) by lia.
  replace (4 * i + 3)%nat with (S (S (S (4 * i)))) by lia.
  reflexivity.
Qed.

(** What one pass of the loop body does to the generator: one draw if the
    particle falls out, none otherwise. *)
Lemma updateSnowflake_cursor (wnd : float64) (w h : Z) (f : Snowflake)
    (r : rand.Rand) :
  snd (updateSnowflake source wnd w h f r) =
  rand.mkRand (rand.seed r)
    (rand.drawn r + (if falls_out h f then 1 else 0)).
Proof.
  unfold updateSnowflake, reset, rand.bind, falls_out. cbn [move set_x set_y y speed].
  destruct (y f + speed f >? F64.of_int h); cbn.
  - f_equal. lia.
  - destruct r. cbn. f_equal. lia.
Qed.

(** Where the loop of [Update] leaves the generator. *)
Lemma updateSnowflakes_cursor (wnd : float64) (w h : Z)
    (fs : list Snowflake) (r : rand.Rand) :
  snd (updateSnowflakes source wnd w h fs r) =
  rand.mkRand (rand.seed r)
    (rand.drawn r + length (filter (falls_out h) fs)).
Proof.
  revert r. induction fs as [|f fs IH]; intros r.
  - cbn. destruct r. cbn. f_equal. lia.
  - cbn [updateSnowflakes]. unfold rand.bind.
    pose proof (updateSnowflake_cursor wnd w h f r) as C.
    destruct (updateSnowflake source wnd w h f r) as [f' r1].
    cbn [snd] in C. subst r1.
    specialize (IH (rand.mkRand (rand.seed r)
                      (rand.drawn r + (if falls_out h f then 1 else 0)))).
    destruct (updateSnowflakes source wnd w h fs _) as [fs' r2].
    cbn [snd rand.ret rand.seed rand.drawn] in *. rewrite IH.
    cbn [filter]. destruct (falls_out h f); cbn [length]; f_equal; lia.
Qed.

(** The loop of [Update] takes exactly one draw for each particle that falls
    out of the canvas, and none for the others: the generator ends as many
    draws further as particles were recycled, on the same seed. *)
Theorem updateSnowflakes_draw_count (wnd : float64) (w h : Z)
    (fs : list Snowflake) (r : rand.Rand) :
  snd (updateSnowflakes source wnd w h fs r) =
  rand.mkRand (rand.seed r)
    (rand.drawn r + length (filter (falls_out h) fs)).
Proof. exact (updateSnowflakes_cursor wnd w h fs r). Qed.

End Draws.

(** Particle 7 of a run on the stepping stream. *)
Lemma Initialize_particle_draws_witness :
  nth_error (snowflakes (Initialize step_source zeroGame (1920, 1080)%Z 5)) 7 =
  Some (mkSnowflake (step_source 5 28%nat * F64.of_int 1920)
                    (step_source 5 29%nat * F64.of_int 1080)
                    (1.0 + step_source 5 30%nat * 3.0)
                    (6.0 + step_source 5 31%nat * 10.0) 0 0).
Proof.
  apply (Initialize_particle_draws step_source zeroGame 1920 1080 5 7). lia.
Defined.

Section Motion.

Variable source : Z -> nat -> float64.

Lemma updateSnowflake_unfold (wnd : float64) (w h : Z) (f : Snowflake)
    (r : rand.Rand) :
  fst (updateSnowflake source wnd w h f r) =
  wrap w (fst (reset source w h (move wnd f) r)).
Proof.
  unfold updateSnowflake, rand.bind.
  now destruct (reset source w h (move wnd f) r).
Qed.

(** The reset followed by the wrap, on a particle still on the canvas. *)
Lemma updateSnowflake_kept (wnd : float64) (w h : Z) (f : Snowflake)
    (r : rand.Rand) :
  y f + speed f <= F64.of_int h ->
  let f' := fst (updateSnowflake source wnd w h f r) in
  y f' = y f + speed f /\
  snd (updateSnowflake source wnd w h f r) = r /\
  (0 <= x f + wnd / size f <= F64.of_int w -> x f' = x f + wnd / size f) /\
  (x f + wnd / size f < 0 -> x f' = F64.of_int w) /\
  (F64.of_int w < x f + wnd / size f -> 0 <= x f + wnd / size f -> x f' = 0).
Proof.
  intros Hy f'. unfold f'. rewrite updateSnowflake_unfold.
  assert (Hm : y (move wnd f) <= F64.of_int h) by exact Hy.
  destruct (reset_cases source w h (move wnd f) r) as [_ Hkeep].
  rewrite (Hkeep Hm).
  destruct (wrap_cases w (move wnd f)) as (Ey & Hlt & Hgt & Hin).
  split; [exact Ey|]. split.
  - unfold updateSnowflake, reset, rand.bind.
    apply gtb_false in Hm. rewrite Hm. reflexivity.
  - split; [|split].
    + intros Hx. now rewrite (Hin Hx).
    + exact Hlt.
    + exact Hgt.
Qed.

(** A particle the velocity step leaves on the canvas: it falls by exactly
    its speed, takes no draw, and moves sideways by wind/size, unless that
    carries it off an edge: below 0 it is put at the width, above the width
    at 0. *)
Theorem updateSnowflake_falls (wnd : float64) (w h : Z) (f : Snowflake)
    (r : rand.Rand) :
  y f + speed f <= F64.of_int h ->
  let f' := fst (updateSnowflake source wnd w h f r) in
  y f' = y f + speed f /\
  snd (updateSnowflake source wnd w h f r) = r /\
  (0 <= x f + wnd / size f <= F64.of_int w -> x f' = x f + wnd / size f) /\
  (x f + wnd / size f < 0 -> x f' = F64.of_int w) /\
  (F64.of_int w < x f + wnd / size f -> 0 <= x f + wnd / size f -> x f' = 0).
Proof. exact (updateSnowflake_kept wnd w h f r). Qed.


Hypothesis source_range : forall s k, 0 <= source s k < 1.

(** The reset followed by the wrap, on a particle that fell out. *)
Lemma updateSnowflake_recycled (wnd : float64) (w h : Z) (f : Snowflake)
    (r : rand.Rand) :
  (0 < w)%Z -> F64.of_int h < y f + speed f ->
  let f' := fst (updateSnowflake source wnd w h f r) in
  y f' = 0 /\
  x f' = source (rand.seed r) (rand.drawn r) * F64.of_int w /\
  0 <= x f' < F64.of_int w.
Proof.
  intros Hw Hy f'. unfold f'. rewrite updateSnowflake_unfold.
  assert (Hm : F64.of_int h < y (move wnd f)) by exact Hy.
  destruct (reset_cases source w h (move wnd f) r) as [Hre _].
  destruct (Hre Hm) as [Ey Ex].
  pose proof (scale_range _ _ (source_range (rand.seed r) (rand.drawn r))
                (of_int_pos w Hw)) as B.
  destruct (wrap_cases w (fst (reset source w h (move wnd f) r)))
    as (Ewy & _ & _ & Hin).
  rewrite Hin by (rewrite Ex; lra).
  rewrite Ey, Ex. repeat split; lra.
Qed.

(** A particle the velocity step carries below the bottom edge: it comes back
    at y = 0 and at the abscissa the next draw picks, draw * width, which
    lies in [0, width) on a canvas of positive width; the wrap leaves it
    there, whatever the wind. *)
Theorem updateSnowflake_recycles (wnd : float64) (w h : Z) (f : Snowflake)
    (r : rand.Rand) :
  (0 < w)%Z -> F64.of_int h < y f + speed f ->
  let f' := fst (updateSnowflake source wnd w h f r) in
  y f' = 0 /\
  x f' = source (rand.seed r) (rand.drawn r) * F64.of_int w /\
  0 <= x f' < F64.of_int w.
Proof. exact (updateSnowflake_recycled wnd w h f r). Qed.

End Motion.

(** A particle of size 2 half a pixel from the left edge, under a light wind. *)
Lemma updateSnowflake_falls_witness :
  y (fst (updateSnowflake step_source (-0.5) 1920 1080
            (mkSnowflake 0.5 100 2 7 0 0) (rand.New 0))) = 100 + 7.
Proof.
  apply (updateSnowflake_falls step_source (-0.5) 1920 1080
           (mkSnowflake 0.5 100 2 7 0 0) (rand.New 0)).
  vm_compute. discriminate.
Defined.


(** A particle six pixels above the bottom edge, falling by seven. *)
Lemma updateSnowflake_recycles_witness :
  y (fst (updateSnowflake step_source 0.3 1920 1080
            (mkSnowflake 5 1074 2 7 0 0) (rand.mkRand 3 2))) = 0.
Proof.
  apply (updateSnowflake_recycles step_source step_source_range 0.3 1920 1080
           (mkSnowflake 5 1074 2 7 0 0) (rand.mkRand 3 2)).
  - reflexivity.
  - vm_compute. reflexivity.
Defined.

Section WindDynamics.

Variable source : Z -> nat -> float64.


Lemma inject_succ (k : nat) :
  inject_Z (Z.of_nat (S k)) == inject_Z (Z.of_nat k) + 1.
Proof.
  rewrite Nat2Z.inj_succ. unfold Z.succ. rewrite inject_Z_plus. reflexivity.
Qed.

(** The countdown and the target over frames without a re-roll. *)
Lemma frames_without_reroll (clock : nat -> Z) (g : Game) (k : nat) :
  (forall j, (j < k)%nat ->
     0 < windChangeTime (frames source clock j g) - 1.0) ->
  windTarget (frames source clock k g) = windTarget g /\
  windChangeTime (frames source clock k g)
    == windChangeTime g - inject_Z (Z.of_nat k).
Proof.
  induction k as [|k IH]; intros H.
  - cbn [frames]. split; [reflexivity|].
    change (inject_Z (Z.of_nat 0)) with 0. lra.
  - destruct IH as [IHt IHc]; [intros j Hj; apply H; lia|].
    cbn [frames].
    destruct (Update_fields source (frames source clock k g) (clock (S k)))
      as (Et & Ec & _).
    destruct (updateWindTarget_cases source
                (windTarget (frames source clock k g))
                (windChangeTime (frames source clock k g)) (clock (S k)))
      as [_ Hkeep].
    rewrite (Hkeep (H k (Nat.lt_succ_diag_r k))) in Et, Ec.
    cbn [fst snd] in Et, Ec. rewrite Et, Ec, IHc, inject_succ.
    split; [exact IHt|]. lra.
Qed.

(** No frame re-rolls while the countdown lasts. *)
Lemma frames_during_countdown (clock : nat -> Z) (g : Game) (k : nat) :
  inject_Z (Z.of_nat k) < windChangeTime g ->
  windTarget (frames source clock k g) = windTarget g /\
  windChangeTime (frames source clock k g)
    == windChangeTime g - inject_Z (Z.of_nat k).
Proof.
  intros H. apply frames_without_reroll.
  induction k as [|k IH]; intros j Hj; [lia|].
  assert (Hk : inject_Z (Z.of_nat k) < windChangeTime g)
    by (rewrite inject_succ in H; lra).
  destruct (Nat.eq_dec j k) as [->|Hne].
  - destruct (frames_without_reroll clock g k (IH Hk)) as [_ Ec].
    rewrite Ec. rewrite inject_succ in H. lra.
  - apply (IH Hk). lia.
Qed.

(** The wind target is held while the countdown lasts: from a state whose
    countdown exceeds [k], the next [k] frames leave the target as it is and
    take exactly [k] off the countdown, whatever the clock reads. *)
Theorem target_held_during_countdown (clock : nat -> Z) (g : Game) (k : nat) :
  inject_Z (Z.of_nat k) < windChangeTime g ->
  windTarget (frames source clock k g) = windTarget g /\
  windChangeTime (frames source clock k g)
    == windChangeTime g - inject_Z (Z.of_nat k).
Proof. exact (frames_during_countdown clock g k). Qed.

(** A re-roll comes before the countdown is outlived: if none of the first
    [k] frames from a state re-rolls the target, for a positive [k], the
    countdown of that state was above [k]. *)
Theorem reroll_before_countdown_ends (clock : nat -> Z) (g : Game) (k : nat) :
  (0 < k)%nat ->
  (forall j, (j < k)%nat ->
     0 < windChangeTime (frames source clock j g) - 1.0) ->
  inject_Z (Z.of_nat k) < windChangeTime g.
Proof.
  intros Hpos H. destruct k as [|k]; [lia|].
  destruct (frames_without_reroll clock g k) as [_ Ec];
    [intros j Hj; apply H; lia|].
  pose proof (H k (Nat.lt_succ_diag_r k)) as Hk.
  rewrite Ec in Hk. rewrite inject_succ. lra.
Qed.

Hypothesis source_range : forall s k, 0 <= source s k < 1.



End WindDynamics.

(** A state five frames before its next re-roll. *)
Lemma target_held_during_countdown_witness :
  windTarget (frames step_source (fun k => Z.of_nat k) 4
                (mkGame [] 1920 1080 0.1 0.3 5)) = 0.3.
Proof.
  apply (target_held_during_countdown step_source (fun k => Z.of_nat k)
           (mkGame [] 1920 1080 0.1 0.3 5) 4).
  vm_compute. reflexivity.
Defined.

Lemma reroll_before_countdown_ends_witness :
  inject_Z (Z.of_nat 3) < windChangeTime (mkGame [] 1920 1080 0.1 0.3 5).
Proof.
  apply (reroll_before_countdown_ends step_source (fun k => Z.of_nat k)
           (mkGame [] 1920 1080 0.1 0.3 5) 3).
  - lia.
  - intros j Hj. destruct j as [|[|[|j]]]; [vm_compute; reflexivity ..|lia].
Defined.



Section RunInvariants.

Variable source : Z -> nat -> float64.

(** [Layout] answers with the monitor size [Initialize] read, at every frame
    of a run and whatever outside size the host proposes. *)
Theorem Layout_reports_monitor (g0 : Game) (w h : Z) (clock : nat -> Z)
    (n : nat) (outsideWidth outsideHeight : Z) :
  Layout (run source g0 (w, h) clock n) outsideWidth outsideHeight = (w, h).
Proof.
  unfold Layout, run.
  destruct (frames_screen source clock n
              (Initialize source g0 (w, h) (clock 0%nat))) as [Ew Eh].
  destruct (Initialize_screen source g0 w h (clock 0%nat)) as [Iw Ih].
  now rewrite Ew, Eh, Iw, Ih.
Qed.

Hypothesis source_range : forall s k, 0 <= source s k < 1.

Lemma run_length (g0 : Game) (screen : Z * Z) (clock : nat -> Z) (n : nat) :
  length (snowflakes (run source g0 screen clock n)) = 300%nat.
Proof.
  unfold run. induction n as [|n IH]; cbn [frames].
  - apply Initialize_length_drift.
  - now rewrite Update_length.
Qed.

Lemma Initialize_attributes_box (g0 : Game) (w h now : Z) :
  (0 < w)%Z -> (0 < h)%Z ->
  Forall (fun f => created_attributes f /\ in_closed_box w h f)
         (snowflakes (Initialize source g0 (w, h) now)).
Proof.
  intros Hw Hh. unfold Initialize.
  pose proof (fillSnowflakes_Forall source
                (fun f => created_attributes f /\ in_closed_box w h f) w h) as F.
  specialize (F (fun r =>
    match newSnowflake_created source source_range w h r Hw Hh with
    | conj Hs (conj Hv (conj (conj Hx0 Hx1) (conj Hy0 Hy1))) =>
        conj (conj Hs (conj Hv (conj eq_refl eq_refl)))
             (conj (conj Hx0 (Qlt_le_weak _ _ Hx1))
                   (conj Hy0 (Qlt_le_weak _ _ Hy1)))
    end) numSnowflakes (rand.New now)).
  destruct (fillSnowflakes source numSnowflakes w h (rand.New now)).
  exact F.
Qed.

(** What every state of a run satisfies, particle by particle. *)
Lemma run_attributes_box (g0 : Game) (w h : Z) (clock : nat -> Z) (n : nat) :
  (0 < w)%Z -> (0 < h)%Z ->
  Forall (fun f => created_attributes f /\ in_closed_box w h f)
         (snowflakes (run source g0 (w, h) clock n)).
Proof.
  intros Hw Hh. unfold run. induction n as [|n IH]; cbn [frames].
  - now apply Initialize_attributes_box.
  - set (g := frames source clock n (Initialize source g0 (w, h) (clock 0%nat)))
      in *.
    destruct (Update_fields source g (clock (S n))) as (_ & _ & _ & _ & _ & Es).
    assert (Ew : screenWidth g = w /\ screenHeight g = h).
    { unfold g.
      destruct (frames_screen source clock n
                  (Initialize source g0 (w, h) (clock 0%nat))) as [Ew Eh].
      destruct (Initialize_screen source g0 w h (clock 0%nat)) as [Iw Ih].
      rewrite Ew, Eh. now split. }
    destruct Ew as [Ew Eh]. rewrite Es, Ew, Eh.
    eapply Forall2_transfer; [|exact IH].
    apply updateSnowflakes_Forall2.
    intros f r _ [Ha Hb]. split.
    + destruct (updateSnowflake_same_attributes source
                  (wind (fst (Update source g (clock (S n))))) w h f r)
        as (Es' & Ev' & Ed' & Ew').
      unfold created_attributes in *. now rewrite Es', Ev', Ed', Ew'.
    + apply updateSnowflake_closed_box; [exact Hb|].
      destruct Ha as (_ & [Hv _] & _). lra.
Qed.

(** At every frame of a run on a canvas of positive size, every particle
    still has the attributes it was created with: 1.0 <= size < 4.0,
    6.0 <= speed < 16.0, and drift and windSpeed equal to 0.  In particular
    the division by the size in [Update] never meets a zero. *)
Theorem run_keeps_created_attributes (g0 : Game) (w h : Z) (clock : nat -> Z)
    (n : nat) :
  (0 < w)%Z -> (0 < h)%Z ->
  Forall (fun f => 1.0 <= size f < 4.0 /\ 6.0 <= speed f < 16.0 /\
                   drift f = 0 /\ windSpeed f = 0)
         (snowflakes (run source g0 (w, h) clock n)).
Proof.
  intros Hw Hh.
  eapply Forall_impl; [|exact (run_attributes_box g0 w h clock n Hw Hh)].
  intros f [Ha _]. exact Ha.
Qed.

End RunInvariants.

Lemma run_keeps_created_attributes_witness :
  Forall (fun f => 1.0 <= size f < 4.0 /\ 6.0 <= speed f < 16.0 /\
                   drift f = 0 /\ windSpeed f = 0)
    (snowflakes (run step_source zeroGame (1920, 1080)%Z (fun k => Z.of_nat k) 5)).
Proof.
  apply (run_keeps_created_attributes step_source step_source_range zeroGame
           1920 1080 (fun k => Z.of_nat k) 5); reflexivity.
Defined.

Section Recurrence.

Variable source : Z -> nat -> float64.
Hypothesis source_range : forall s k, 0 <= source s k < 1.

Lemma of_nat_le (j n : nat) :
  (j <= n)%nat -> inject_Z (Z.of_nat j) <= inject_Z (Z.of_nat n).
Proof. intros H. rewrite <- Zle_Qle. lia. Qed.

(** The wind changes every 60 to 180 frames: after a frame that re-rolls the
    target, the target stays as re-rolled through the next 59 frames, none of
    which re-rolls, and the next 180 frames do not all pass without a
    re-roll. *)
Theorem rerolls_60_to_180_apart (g : Game) (now : Z) (clock : nat -> Z) :
  windChangeTime g - 1.0 <= 0 ->
  let g1 := fst (Update source g now) in
  (forall j, (j <= 59)%nat ->
     windTarget (frames source clock j g1) = windTarget g1) /\
  (forall j, (j < 59)%nat ->
     0 < windChangeTime (frames source clock j g1) - 1.0) /\
  ~ (forall j, (j < 180)%nat ->
       0 < windChangeTime (frames source clock j g1) - 1.0).
Proof.
  intros Hc g1.
  assert (C : 60 <= windChangeTime g1 < 180).
  { unfold g1. destruct (Update_fields source g now) as (_ & Ec & _).
    destruct (updateWindTarget_cases source (windTarget g) (windChangeTime g) now)
      as [Hre _].
    rewrite (Hre Hc) in Ec. cbn [fst snd] in Ec. rewrite Ec.
    apply (reroll_range source source_range now). }
  split; [|split].
  - intros j Hj.
    apply (frames_during_countdown source clock g1 j).
    pose proof (of_nat_le j 59 Hj) as B.
    change (inject_Z (Z.of_nat 59)) with 59 in B. lra.
  - intros j Hj.
    pose proof (of_nat_le j 58 ltac:(lia)) as B.
    change (inject_Z (Z.of_nat 58)) with 58 in B.
    destruct (frames_during_countdown source clock g1 j) as [_ E]; [lra|].
    rewrite E. lra.
  - intros H.
    destruct (frames_without_reroll source clock g1 179) as [_ E];
      [intros j Hj; apply H; lia|].
    pose proof (H 179%nat ltac:(lia)) as L. rewrite E in L.
    change (inject_Z (Z.of_nat 179)) with 179 in L. lra.
Qed.

Lemma updateSnowflakes_app (wnd : float64) (w h : Z)
    (pre post : list Snowflake) (r : rand.Rand) :
  fst (updateSnowflakes source wnd w h (pre ++ post) r) =
  fst (updateSnowflakes source wnd w h pre r) ++
  fst (updateSnowflakes source wnd w h post
         (snd (updateSnowflakes source wnd w h pre r))).
Proof.
  revert r. induction pre as [|f pre IH]; intros r; [reflexivity|].
  cbn [app updateSnowflakes]. unfold rand.bind.
  destruct (updateSnowflake source wnd w h f r) as [f' r1].
  specialize (IH r1).
  destruct (updateSnowflakes source wnd w h (pre ++ post) r1) as [l r2].
  destruct (updateSnowflakes source wnd w h pre r1) as [l1 r3].
  cbn [fst snd rand.ret] in *. now rewrite IH.
Qed.

Lemma updateSnowflakes_length (wnd : float64) (w h : Z)
    (fs : list Snowflake) (r : rand.Rand) :
  length (fst (updateSnowflakes source wnd w h fs r)) = length fs.
Proof.
  symmetry. apply Forall2_length with (R := fun _ _ => True).
  apply updateSnowflakes_Forall2. trivial.
Qed.

(** The particles recycled in one frame take consecutive draws of that
    frame's generator, in their order in the slice: a particle that falls
    out comes back at y = 0 and x = draw * width, for the draw whose index
    is the cursor the loop started from plus the number of particles
    recycled before it; so no two of them share a draw. *)
Theorem recycled_draws_are_consecutive (wnd : float64) (w h : Z)
    (pre post : list Snowflake) (f : Snowflake) (r : rand.Rand) :
  (0 < w)%Z -> falls_out h f = true ->
  exists f',
    nth_error (fst (updateSnowflakes source wnd w h (pre ++ f :: post) r))
              (length pre) = Some f' /\
    y f' = 0 /\
    x f' = source (rand.seed r)
             (rand.drawn r + length (filter (falls_out h) pre))
           * F64.of_int w.
Proof.
  intros Hw Hf.
  rewrite updateSnowflakes_app, updateSnowflakes_cursor.
  rewrite nth_error_app2 by (rewrite updateSnowflakes_length; lia).
  rewrite updateSnowflakes_length, Nat.sub_diag.
  cbn [updateSnowflakes]. unfold rand.bind.
  set (r1 := rand.mkRand (rand.seed r)
               (rand.drawn r + length (filter (falls_out h) pre))).
  assert (Hy : F64.of_int h < y f + speed f) by (now apply gtb_spec).
  destruct (updateSnowflake_recycled source source_range wnd w h f r1 Hw Hy)
    as (Ey & Ex & _).
  destruct (updateSnowflake source wnd w h f r1) as [f' r2].
  destruct (updateSnowflakes source wnd w h post r2) as [l r3].
  cbn [fst rand.ret nth_error] in *.
  exists f'. repeat split; assumption.
Qed.

Lemma Forall2_nth_error {A B : Type} (R : A -> B -> Prop)
    (l : list A) (l' : list B) :
  Forall2 R l l' ->
  forall i a, nth_error l i = Some a ->
  exists b, nth_error l' i = Some b /\ R a b.
Proof.
  induction 1 as [|a0 b0 l l' Hab _ IH]; intros i a Hi.
  - destruct i; discriminate.
  - destruct i as [|i]; cbn [nth_error] in *.
    + injection Hi as <-. eauto.
    + now apply IH.
Qed.

(** A particle of a frame is the loop body applied to the particle of the
    frame before at the same index. *)
Lemma Update_particle (g : Game) (now : Z) (i : nat) (f : Snowflake) :
  nth_error (snowflakes g) i = Some f ->
  exists r,
    nth_error (snowflakes (fst (Update source g now))) i =
    Some (fst (updateSnowflake source (wind (fst (Update source g now)))
                 (screenWidth g) (screenHeight g) f r)).
Proof.
  intros Hi.
  destruct (Update_fields source g now) as (_ & _ & _ & _ & _ & Es).
  pose proof (updateSnowflakes_Forall2 source
                (fun a b => exists r,
                   b = fst (updateSnowflake source
                              (wind (fst (Update source g now)))
                              (screenWidth g) (screenHeight g) a r))
                (wind (fst (Update source g now)))
                (screenWidth g) (screenHeight g) (snowflakes g)
                (fun a r _ => ex_intro _ r eq_refl)
                (snd (updateWindTarget source (windTarget g)
                        (windChangeTime g) (rand.New now)))) as F2.
  rewrite <- Es in F2.
  destruct (Forall2_nth_error _ _ _ F2 i f Hi) as (b & Hb & r & ->).
  exists r. exact Hb.
Qed.

Lemma run_succ (g0 : Game) (screen : Z * Z) (clock : nat -> Z) (n : nat) :
  run source g0 screen clock (S n) =
  fst (Update source (run source g0 screen clock n) (clock (S n))).
Proof. reflexivity. Qed.

Lemma run_screen (g0 : Game) (w h : Z) (clock : nat -> Z) (n : nat) :
  screenWidth (run source g0 (w, h) clock n) = w /\
  screenHeight (run source g0 (w, h) clock n) = h.
Proof.
  unfold run.
  destruct (frames_screen source clock n
              (Initialize source g0 (w, h) (clock 0%nat))) as [Ew Eh].
  destruct (Initialize_screen source g0 w h (clock 0%nat)) as [Iw Ih].
  rewrite Ew, Eh. now split.
Qed.

(** A particle that stays on the canvas for [j] frames in a row has fallen by
    [j] times its speed. *)
Lemma particle_falls_steadily (g0 : Game) (w h : Z) (clock : nat -> Z)
    (n i : nat) (f0 : Snowflake) :
  nth_error (snowflakes (run source g0 (w, h) clock n)) i = Some f0 ->
  forall j,
    (forall m, (m < j)%nat -> forall f,
       nth_error (snowflakes (run source g0 (w, h) clock (n + m))) i = Some f ->
       falls_out h f = false) ->
    exists f,
      nth_error (snowflakes (run source g0 (w, h) clock (n + j))) i = Some f /\
      speed f = speed f0 /\
      y f == y f0 + inject_Z (Z.of_nat j) * speed f0.
Proof.
  intros H0. induction j as [|j IH]; intros Hstay.
  - exists f0. rewrite Nat.add_0_r. split; [exact H0|]. split; [reflexivity|].
    change (inject_Z (Z.of_nat 0)) with 0. lra.
  - destruct IH as (f & Hf & Ev & Ey); [intros m Hm; apply Hstay; lia|].
    pose proof (Hstay j (Nat.lt_succ_diag_r j) f Hf) as Hin.
    rewrite Nat.add_succ_r, run_succ.
    destruct (Update_particle (run source g0 (w, h) clock (n + j))
                (clock (S (n + j))) i f Hf) as (r & Hnext).
    destruct (run_screen g0 w h clock (n + j)) as [Ew Eh].
    rewrite Ew, Eh in Hnext.
    eexists. split; [exact Hnext|].
    apply gtb_false in Hin.
    set (wnd := wind (fst (Update source (run source g0 (w, h) clock (n + j))
                             (clock (S (n + j)))))) in *.
    destruct (updateSnowflake_kept source wnd w h f r Hin) as (Ey' & _).
    destruct (updateSnowflake_same_attributes source wnd w h f r)
      as (_ & Ev' & _).
    split; [congruence|].
    rewrite Ey', Ey, Ev, inject_succ. ring.
Qed.

(** Every particle of a run is recycled in time: it cannot stay on the canvas
    for more than height/6 frames in a row.  If particle [i] passes [k]
    consecutive frames without falling out, then 6 * k <= height. *)
Theorem particle_recycled_in_time (g0 : Game) (w h : Z) (clock : nat -> Z)
    (n i k : nat) :
  (0 < w)%Z -> (0 < h)%Z -> (i < 300)%nat ->
  (forall m, (m < k)%nat -> forall f,
     nth_error (snowflakes (run source g0 (w, h) clock (n + m))) i = Some f ->
     falls_out h f = false) ->
  (6 * Z.of_nat k <= h)%Z.
Proof.
  intros Hw Hh Hi Hstay.
  destruct k as [|k]; [lia|].
  destruct (nth_error (snowflakes (run source g0 (w, h) clock n)) i)
    as [f0|] eqn:H0.
  2:{ apply nth_error_None in H0. rewrite run_length in H0. lia. }
  destruct (particle_falls_steadily g0 w h clock n i f0 H0 k)
    as (f & Hf & Ev & Ey); [intros m Hm; apply Hstay; lia|].
  pose proof (Hstay k (Nat.lt_succ_diag_r k) f Hf) as Hin.
  apply gtb_false in Hin.
  pose proof (run_attributes_box source source_range g0 w h clock n Hw Hh) as I.
  rewrite Forall_forall in I.
  destruct (I f0 (nth_error_In _ _ H0)) as [(_ & [Hv _] & _) [_ [Hy0 _]]].
  rewrite Ey, Ev in Hin.
  assert (Q : inject_Z 6 * inject_Z (Z.of_nat (S k)) <= inject_Z h).
  { rewrite inject_succ.
    assert (0 <= inject_Z (Z.of_nat k)) by (apply (of_nat_le 0 k); lia).
    assert (P : 6 * (inject_Z (Z.of_nat k) + 1)
                <= speed f0 * (inject_Z (Z.of_nat k) + 1))
      by (apply Qmult_le_compat_r; lra).
    change (inject_Z 6) with 6. unfold F64.of_int in Hin. lra. }
  rewrite <- inject_Z_mult, <- Zle_Qle in Q. exact Q.
Qed.

End Recurrence.

(** A frame that re-rolls, then the 59 frames after it. *)
Lemma rerolls_60_to_180_apart_witness :
  windTarget (frames step_source (fun k => Z.of_nat k) 59
                (fst (Update step_source (mkGame [] 1920 1080 0 0 1) 7))) =
  windTarget (fst (Update step_source (mkGame [] 1920 1080 0 0 1) 7)).
Proof.
  apply (rerolls_60_to_180_apart step_source step_source_range
           (mkGame [] 1920 1080 0 0 1) 7 (fun k => Z.of_nat k)).
  - vm_compute. discriminate.
  - lia.
Defined.

(** Two particles about to fall out, with one between them that is not. *)
Lemma recycled_draws_are_consecutive_witness :
  exists f',
    nth_error (fst (updateSnowflakes step_source 0.1 1920 1080
                      ([mkSnowflake 5 1079 2 7 0 0; mkSnowflake 9 10 1 6 0 0]
                       ++ mkSnowflake 30 1075 3 8 0 0 :: [])
                      (rand.New 4))) 2 = Some f' /\
    y f' = 0 /\
    x f' = step_source 4 1%nat * F64.of_int 1920.
Proof.
  apply (recycled_draws_are_consecutive step_source step_source_range 0.1
           1920 1080 [mkSnowflake 5 1079 2 7 0 0; mkSnowflake 9 10 1 6 0 0]
           [] (mkSnowflake 30 1075 3 8 0 0) (rand.New 4)); reflexivity.
Defined.

(** On a canvas six pixels high, a particle created at the top with speed 6
    stays for one frame. *)
Lemma particle_recycled_in_time_witness :
  (6 * Z.of_nat 1 <= 6)%Z.
Proof.
  apply (particle_recycled_in_time zero_source zero_source_range zeroGame
           1920 6 (fun k => Z.of_nat k) 0 0 1); try reflexivity; [lia|].
  intros m Hm f Hf. assert (m = 0%nat) by lia. subst m.
  vm_compute in Hf. injection Hf as <-. vm_compute. reflexivity.
Defined.

Section Convergence.

Variable source : Z -> nat -> float64.


End Convergence.


(** * Further properties of Draw *)

(** Truncation of a non-negative value between two consecutive integers. *)
Lemma to_int_between (q : float64) (k : Z) :
  (0 <= k)%Z -> inject_Z k <= q < inject_Z (k + 1) -> F64.to_int q = k.
Proof.
  destruct q as [n d]. unfold Qle, Qlt, F64.to_int. cbn [Qnum Qden inject_Z].
  intros Hk [Hlo Hhi].
  rewrite Z.quot_div_nonneg by nia.
  symmetry. apply Z.div_unique with (r := (n - k * Zpos d)%Z); nia.
Qed.

Lemma to_int_range (q : float64) (n : Z) :
  0 <= q <= inject_Z n -> (0 <= F64.to_int q <= n)%Z.
Proof.
  destruct q as [a d]. unfold Qle, F64.to_int. cbn [Qnum Qden inject_Z].
  intros [Hlo Hhi].
  rewrite Z.quot_div_nonneg by lia. split.
  - apply Z.div_pos; lia.
  - apply Z.div_le_upper_bound; nia.
Qed.

(** The loops of [Draw] for the truncated sizes 2 and 3, on any pixel
    constructor. *)
Lemma disc_loops (P : Z -> Z -> ImageOp) :
  (flat_map (fun dx =>
     flat_map (fun dy =>
       if (int.add (int.mul dx dx) (int.mul dy dy)
             <=? int.quot (int.mul 2 2) 4)%Z
       then [P dx dy] else [])
       (int.upto (int.quot (int.neg 2) 2) (int.quot 2 2)))
     (int.upto (int.quot (int.neg 2) 2) (int.quot 2 2))
   = [P (-1) 0; P 0 (-1); P 0 0; P 0 1; P 1 0]%Z) /\
  (flat_map (fun dx =>
     flat_map (fun dy =>
       if (int.add (int.mul dx dx) (int.mul dy dy)
             <=? int.quot (int.mul 3 3) 4)%Z
       then [P dx dy] else [])
       (int.upto (int.quot (int.neg 3) 2) (int.quot 3 2)))
     (int.upto (int.quot (int.neg 3) 2) (int.quot 3 2))
   = [P (-1) (-1); P (-1) 0; P (-1) 1; P 0 (-1); P 0 0; P 0 1;
      P 1 (-1); P 1 0; P 1 1]%Z).
Proof. split; reflexivity. Qed.

Lemma add_near (p d : Z) :
  (- 2 ^ 62 < p < 2 ^ 62)%Z -> (- 1 <= d <= 1)%Z -> int.add p d = (p + d)%Z.
Proof. intros Hp Hd. apply wrap_small. lia. Qed.

(** The three shapes of a particle of size 1 to below 4. *)
Lemma drawSnowflake_by_size (flake : Snowflake) :
  let px := F64.to_int (x flake) in
  let py := F64.to_int (y flake) in
  (- 2 ^ 62 < px < 2 ^ 62)%Z -> (- 2 ^ 62 < py < 2 ^ 62)%Z ->
  (1 <= size flake < 2 -> drawSnowflake flake = [Image_Set px py White]) /\
  (2 <= size flake < 3 ->
     drawSnowflake flake =
       [Image_Set (px - 1) py White;
        Image_Set px (py - 1) White; Image_Set px py White;
        Image_Set px (py + 1) White;
        Image_Set (px + 1) py White]%Z) /\
  (3 <= size flake < 4 ->
     drawSnowflake flake =
       [Image_Set (px - 1) (py - 1) White; Image_Set (px - 1) py White;
        Image_Set (px - 1) (py + 1) White;
        Image_Set px (py - 1) White; Image_Set px py White;
        Image_Set px (py + 1) White;
        Image_Set (px + 1) (py - 1) White; Image_Set (px + 1) py White;
        Image_Set (px + 1) (py + 1) White]%Z).
Proof.
  intros px py Hpx Hpy.
  assert (A : forall p d, (- 2 ^ 62 < p < 2 ^ 62)%Z -> (- 1 <= d <= 1)%Z ->
                          int.add p d = (p + d)%Z) by exact add_near.
  split; [|split]; intros Hs.
  - assert (E : F64.to_int (size flake) = 1%Z)
      by (apply to_int_between; [lia | exact Hs]).
    unfold drawSnowflake. rewrite E. reflexivity.
  - assert (E : F64.to_int (size flake) = 2%Z)
      by (apply to_int_between; [lia | exact Hs]).
    unfold drawSnowflake. rewrite E. fold px py. cbn [Z.leb Z.compare Pos.compare Pos.compare_cont].
    destruct (disc_loops (fun dx dy =>
                Image_Set (int.add px dx) (int.add py dy) White)) as [L _].
    cbv beta in L. rewrite L.
    rewrite !A by lia. rewrite !Z.add_0_r. reflexivity.
  - assert (E : F64.to_int (size flake) = 3%Z)
      by (apply to_int_between; [lia | exact Hs]).
    unfold drawSnowflake. rewrite E. fold px py. cbn [Z.leb Z.compare Pos.compare Pos.compare_cont].
    destruct (disc_loops (fun dx dy =>
                Image_Set (int.add px dx) (int.add py dy) White)) as [_ L].
    cbv beta in L. rewrite L.
    rewrite !A by lia. rewrite !Z.add_0_r. reflexivity.
Qed.

(** The shapes [Draw] gives the particles [Initialize] creates, by size: one
    pixel below 2, a plus sign of five pixels from 2 to below 3, a square of
    nine pixels from 3 to below 4, each centred on the truncated position
    and plotted in the order of the loops. *)
Theorem drawSnowflake_shapes (flake : Snowflake) :
  let px := F64.to_int (x flake) in
  let py := F64.to_int (y flake) in
  (- 2 ^ 62 < px < 2 ^ 62)%Z -> (- 2 ^ 62 < py < 2 ^ 62)%Z ->
  (1 <= size flake < 2 -> drawSnowflake flake = [Image_Set px py White]) /\
  (2 <= size flake < 3 ->
     drawSnowflake flake =
       [Image_Set (px - 1) py White;
        Image_Set px (py - 1) White; Image_Set px py White;
        Image_Set px (py + 1) White;
        Image_Set (px + 1) py White]%Z) /\
  (3 <= size flake < 4 ->
     drawSnowflake flake =
       [Image_Set (px - 1) (py - 1) White; Image_Set (px - 1) py White;
        Image_Set (px - 1) (py + 1) White;
        Image_Set px (py - 1) White; Image_Set px py White;
        Image_Set px (py + 1) White;
        Image_Set (px + 1) (py - 1) White; Image_Set (px + 1) py White;
        Image_Set (px + 1) (py + 1) White]%Z).
Proof. exact (drawSnowflake_by_size flake). Qed.

Lemma drawSnowflake_white (flake : Snowflake) :
  Forall (fun op => exists px py, op = Image_Set px py White)
         (drawSnowflake flake).
Proof.
  unfold drawSnowflake.
  destruct (F64.to_int (size flake) <=? 1)%Z.
  - constructor; [|constructor]. eauto.
  - apply Forall_forall. intros op Hop.
    apply in_flat_map in Hop. destruct Hop as (dx & _ & Hop).
    apply in_flat_map in Hop. destruct Hop as (dy & _ & Hop).
    destruct (_ <=? _)%Z in Hop; [|destruct Hop].
    destruct Hop as [<-|[]]. eauto.
Qed.

(** [Draw] clears the image exactly once, first, to opaque black, and after
    that only sets pixels, all of them white: for every state, also an
    empty one, where it does nothing but clear. *)
Theorem Draw_clears_then_plots_white (g : Game) :
  exists plotted,
    Draw g = Image_Fill (RGBA 0 0 0 255) :: plotted /\
    Forall (fun op => exists px py, op = Image_Set px py White) plotted /\
    (snowflakes g = [] -> plotted = []).
Proof.
  exists (flat_map drawSnowflake (snowflakes g)).
  split; [reflexivity|]. split.
  - apply Forall_forall. intros op Hop.
    apply in_flat_map in Hop. destruct Hop as (flake & _ & Hop).
    pose proof (drawSnowflake_white flake) as W.
    rewrite Forall_forall in W. now apply W.
  - intros E. now rewrite E.
Qed.

(** A particle of size 3.5 in the middle of the canvas. *)
Lemma drawSnowflake_shapes_witness :
  List.length (drawSnowflake (mkSnowflake 960.25 540.75 3.5 9 0 0)) = 9%nat.
Proof.
  pose proof (drawSnowflake_shapes (mkSnowflake 960.25 540.75 3.5 9 0 0)) as B.
  cbv zeta in B.
  destruct B as (_ & _ & B); [split; reflexivity | split; reflexivity |].
  rewrite B; [reflexivity|].
  split; [vm_compute; discriminate | vm_compute; reflexivity].
Defined.

Lemma flat_map_length_le {A B : Type} (f : A -> list B) (k : nat) (l : list A) :
  Forall (fun a => (length (f a) <= k)%nat) l ->
  (length (flat_map f l) <= k * length l)%nat.
Proof.
  induction 1 as [|a l Ha _ IH]; cbn [flat_map length]; [lia|].
  rewrite length_app. lia.
Qed.

(** One particle of a run: at most nine pixels, none further than one pixel
    from the canvas. *)
Lemma drawSnowflake_near_canvas (w h : Z) (flake : Snowflake) :
  (0 < w < 2 ^ 62)%Z -> (0 < h < 2 ^ 62)%Z ->
  created_attributes flake -> in_closed_box w h flake ->
  (length (drawSnowflake flake) <= 9)%nat /\
  forall px py c, In (Image_Set px py c) (drawSnowflake flake) ->
    (- 1 <= px <= w + 1 /\ - 1 <= py <= h + 1)%Z.
Proof.
  intros Hw Hh (Hs & _) [Hx Hy].
  pose proof (to_int_range (x flake) w Hx) as Bx.
  pose proof (to_int_range (y flake) h Hy) as By.
  destruct (drawSnowflake_by_size flake) as (S1 & S2 & S3); [lia | lia |].
  destruct (Qlt_le_dec (size flake) 2) as [H2|H2];
    [|destruct (Qlt_le_dec (size flake) 3) as [H3|H3]].
  - rewrite S1 by lra. split; [cbn; lia|].
    intros px py c [E|[]]. injection E as <- <- _. lia.
  - rewrite S2 by lra. split; [cbn; lia|].
    intros px py c Hin. cbn [In] in Hin.
    repeat (destruct Hin as [E|Hin]; [injection E as <- <- _; lia|]).
    destruct Hin.
  - rewrite S3 by lra. split; [cbn; lia|].
    intros px py c Hin. cbn [In] in Hin.
    repeat (destruct Hin as [E|Hin]; [injection E as <- <- _; lia|]).
    destruct Hin.
Qed.

Section DrawRun.

Variable source : Z -> nat -> float64.
Hypothesis source_range : forall s k, 0 <= source s k < 1.

(** What [Draw] costs and where it writes, at every frame of a run on a
    canvas of positive size below 2^62: at most 1 + 9 * 300 operations, and
    every pixel it sets lies within one pixel of the canvas, from -1 to
    width + 1 and from -1 to height + 1.  The image is [width] by [height],
    so pixels on its outside are among them. *)
Theorem Draw_run_budget (g0 : Game) (w h : Z) (clock : nat -> Z) (n : nat) :
  (0 < w < 2 ^ 62)%Z -> (0 < h < 2 ^ 62)%Z ->
  let g := run source g0 (w, h) clock n in
  (length (Draw g) <= 2701)%nat /\
  forall px py c, In (Image_Set px py c) (Draw g) ->
    (- 1 <= px <= w + 1 /\ - 1 <= py <= h + 1)%Z.
Proof.
  intros Hw Hh g.
  pose proof (run_attributes_box source source_range g0 w h clock n
                ltac:(lia) ltac:(lia)) as I.
  fold g in I. rewrite Forall_forall in I.
  split.
  - unfold Draw. cbn [length].
    pose proof (flat_map_length_le drawSnowflake 9 (snowflakes g)) as L.
    pose proof (run_length source g0 (w, h) clock n) as Len. fold g in Len.
    assert (F : Forall (fun a => (length (drawSnowflake a) <= 9)%nat)
                  (snowflakes g)).
    { apply Forall_forall. intros f Hf. destruct (I f Hf) as [Ha Hb].
      now apply (drawSnowflake_near_canvas w h f Hw Hh Ha Hb). }
    specialize (L F). lia.
  - intros px py c Hin. unfold Draw in Hin.
    destruct Hin as [E|Hin]; [discriminate E|].
    apply in_flat_map in Hin. destruct Hin as (f & Hf & Hin).
    destruct (I f Hf) as [Ha Hb].
    destruct (drawSnowflake_near_canvas w h f Hw Hh Ha Hb) as [_ Near].
    exact (Near px py c Hin).
Qed.

End DrawRun.

Lemma Draw_run_budget_witness :
  (length (Draw (run step_source zeroGame (1920, 1080)%Z (fun k => Z.of_nat k) 2))
   <= 2701)%nat.
Proof.
  apply (Draw_run_budget step_source step_source_range zeroGame 1920 1080
           (fun k => Z.of_nat k) 2); split; reflexivity.
Defined.

(** The wrap can leave a particle exactly on the right edge, and [Draw] then
    sets a pixel in column [width], one past the last column of the image:
    it happens one frame into the run on the stream that always draws 0. *)
Example Draw_plots_past_right_edge :
  In (Image_Set 1920 6 White)
     (Draw (run zero_source zeroGame (1920, 1080)%Z (fun _ => 0%Z) 1)).
Proof.
  apply Draw_each_particle. right.
  assert (E : exists f, hd_error (snowflakes
                (run zero_source zeroGame (1920, 1080)%Z (fun _ => 0%Z) 1))
              = Some f /\ drawSnowflake f = [Image_Set 1920 6 White]).
  { eexists. split; [vm_compute; reflexivity|]. vm_compute. reflexivity. }
  destruct E as (f & Hd & Ef). exists f. split.
  - destruct (snowflakes (run zero_source zeroGame (1920, 1080)%Z (fun _ => 0%Z) 1))
      as [|f0 rest]; [discriminate|]. injection Hd as ->. now left.
  - rewrite Ef. now left.
Qed.

(** * Further properties of SetWindowToBottom and of the layering loop *)

Lemma SetWindowToBottom_missing (user32 : User32) :
  foundWindow user32 = 0%Z ->
  SetWindowToBottom user32 =
  [LogPrintln "Could not find window handle, will retry later"].
Proof.
  unfold SetWindowToBottom, foundWindow. intros H.
  destruct (FindWindowW user32 None (Some "Snow Wallpaper"%string) =? 0)%Z eqn:E.
  - now rewrite H.
  - apply Z.eqb_neq in E. contradiction.
Qed.

(** The two lookups: the title decides whenever it finds a window, the class
    name "Ebiten" is asked only after the title found none, and when neither
    finds the window the routine writes its log line and calls
    [SetWindowPos] on nothing. *)
Theorem SetWindowToBottom_lookup (user32 : User32) :
  let byTitle := FindWindowW user32 None (Some "Snow Wallpaper"%string) in
  let byClass := FindWindowW user32 (Some "Ebiten"%string) None in
  (byTitle <> 0%Z -> SetWindowToBottom user32 = reposition user32 byTitle) /\
  (byTitle = 0%Z -> byClass <> 0%Z ->
     SetWindowToBottom user32 = reposition user32 byClass) /\
  (byTitle = 0%Z -> byClass = 0%Z ->
     SetWindowToBottom user32 =
       [LogPrintln "Could not find window handle, will retry later"] /\
     forall hWnd after X Y cx cy flags,
       ~ In (SetWindowPos hWnd after X Y cx cy flags) (SetWindowToBottom user32)).
Proof.
  intros byTitle byClass. split; [|split].
  - intros H. rewrite SetWindowToBottom_found.
    + unfold foundWindow. fold byTitle. apply Z.eqb_neq in H. now rewrite H.
    + unfold foundWindow. fold byTitle. apply Z.eqb_neq in H. rewrite H.
      now apply Z.eqb_neq.
  - intros Ht Hc. rewrite SetWindowToBottom_found.
    + unfold foundWindow. fold byTitle byClass. now rewrite Ht.
    + unfold foundWindow. fold byTitle byClass. now rewrite Ht.
  - intros Ht Hc.
    assert (E : SetWindowToBottom user32 =
                [LogPrintln "Could not find window handle, will retry later"]).
    { apply SetWindowToBottom_missing. unfold foundWindow.
      fold byTitle byClass. now rewrite Ht. }
    split; [exact E|].
    intros hWnd after X Y cx cy flags Hin. rewrite E in Hin.
    destruct Hin as [D|[]]. discriminate D.
Qed.

Lemma reposition_keeps_geometry (user32 : User32) (hwnd : Z) :
  Forall keeps_geometry (reposition user32 hwnd).
Proof.
  unfold reposition.
  constructor; [cbn; repeat split|].
  destruct (negb (GetForegroundWindow user32 =? 0)%Z
            && negb (GetForegroundWindow user32 =? hwnd)%Z);
    [|constructor].
  constructor; [cbn; repeat split|constructor].
Qed.

Lemma SetWindowToBottom_cases (user32 : User32) :
  (foundWindow user32 = 0%Z /\
   SetWindowToBottom user32 =
   [LogPrintln "Could not find window handle, will retry later"]) \/
  (foundWindow user32 <> 0%Z /\
   SetWindowToBottom user32 = reposition user32 (foundWindow user32)).
Proof.
  destruct (Z.eq_dec (foundWindow user32) 0) as [E|E].
  - left. split; [exact E|]. now apply SetWindowToBottom_missing.
  - right. split; [exact E|]. now apply SetWindowToBottom_found.
Qed.

(** The routine never moves, resizes or raises the render window, on any
    desktop: it makes at most two [SetWindowPos] calls, each with zero
    geometry under the flags no-move, no-size and show-window, and every
    call on the render window puts it at the bottom of the Z order with the
    no-activate flag. *)
Theorem SetWindowToBottom_never_moves (user32 : User32) :
  (length (SetWindowToBottom user32) <= 2)%nat /\
  Forall keeps_geometry (SetWindowToBottom user32) /\
  forall after X Y cx cy flags,
    In (SetWindowPos (foundWindow user32) after X Y cx cy flags)
       (SetWindowToBottom user32) ->
    after = HWND_BOTTOM /\ has_flag flags SWP_NOACTIVATE.
Proof.
  destruct (SetWindowToBottom_cases user32) as [[E0 E]|[Hf E]]; rewrite E.
  - split; [cbn; lia|]. split; [repeat constructor|].
    intros after X Y cx cy flags [D|[]]. discriminate D.
  - split; [|split].
    + unfold reposition. cbn [length].
      destruct (negb _ && negb _); cbn; lia.
    + apply reposition_keeps_geometry.
    + intros after X Y cx cy flags Hin. unfold reposition in Hin.
      destruct Hin as [D|Hin].
      * injection D as <- _ _ _ _ <-. split; reflexivity.
      * destruct (GetForegroundWindow user32 =? 0)%Z; [destruct Hin|].
        destruct (GetForegroundWindow user32 =? foundWindow user32)%Z eqn:Ne;
          [destruct Hin|].
        cbn in Hin. destruct Hin as [D|[]].
        injection D as D _. apply Z.eqb_neq in Ne. contradiction.
Qed.

(** A tick on which the window with the focus is the render window itself
    makes the single call that sends it to the bottom; so does a tick on
    which no window has the focus. *)
Theorem SetWindowToBottom_own_focus (user32 : User32) :
  foundWindow user32 <> 0%Z ->
  GetForegroundWindow user32 = foundWindow user32 \/
  GetForegroundWindow user32 = 0%Z ->
  SetWindowToBottom user32 =
  [SetWindowPos (foundWindow user32) HWND_BOTTOM 0 0 0 0
     (Z.lor (Z.lor (Z.lor SWP_NOMOVE SWP_NOSIZE) SWP_NOACTIVATE) SWP_SHOWWINDOW)].
Proof.
  intros Hf Hfg. rewrite (SetWindowToBottom_found user32 Hf). unfold reposition.
  destruct Hfg as [E|E]; rewrite E.
  - rewrite Z.eqb_refl, andb_false_r. reflexivity.
  - reflexivity.
Qed.

(** The layering loop over any sequence of ticks: it never moves or resizes
    a window; it writes one log line for each tick on which the window is
    missing and goes on; and it sends exactly one window to the bottom for
    each tick on which the window is found. *)
Theorem daemon_ticks (ticks : list User32) :
  Forall keeps_geometry (daemon ticks) /\
  length (filter is_log (daemon ticks)) = length (filter window_missing ticks) /\
  length (filter to_bottom (daemon ticks)) =
  length (filter (fun u => negb (window_missing u)) ticks).
Proof.
  unfold daemon. induction ticks as [|u ticks (IHg & IHl & IHb)].
  - repeat split; constructor.
  - cbn [flat_map filter]. rewrite !filter_app, !length_app.
    destruct (SetWindowToBottom_cases u) as [[E0 E]|[Hf E]]; rewrite E.
    + assert (M : window_missing u = true)
        by (unfold window_missing; now rewrite E0).
      rewrite M. cbn [negb]. split; [|split].
      * apply Forall_app. split; [repeat constructor|exact IHg].
      * cbn. now rewrite IHl.
      * cbn. exact IHb.
    + assert (M : window_missing u = false)
        by (unfold window_missing; now apply Z.eqb_neq).
      rewrite M. cbn [negb]. split; [|split].
      * apply Forall_app. split; [apply reposition_keeps_geometry|exact IHg].
      * unfold reposition. destruct (negb _ && negb _); cbn; exact IHl.
      * unfold reposition. destruct (negb _ && negb _); cbn; now rewrite IHb.
Qed.

Lemma SetWindowToBottom_own_focus_witness :
  SetWindowToBottom desktop_100_100 = [SetWindowPos 100 HWND_BOTTOM 0 0 0 0 0x53].
Proof.
  apply (SetWindowToBottom_own_focus desktop_100_100).
  - discriminate.
  - left. reflexivity.
Defined.
